(** * Chat content rendering of the DERISK web front-end

    A shallow embedding of the chat-message rendering pipeline:
    - [ChatContent] (embedded-view tag extractor, status mapper, custom-view
      renderer, robot-context parser), and
    - [VisTabs] (the tab state machine of
      web/components/chat/chat-content/vis-tabs.tsx).

    JavaScript strings are modelled as [string]; each character of the model
    stands for one code unit.  The regular expressions of the source only
    name ASCII characters. *)

From Stdlib Require Import Ascii String List Arith Lia DecimalString.
From Stdlib Require DecimalNat.
From stdpp Require Import base option list strings gmap.

(** ** Strings *)

Module Str.

Fixpoint all (p : ascii -> bool) (s : string) : bool :=
  match s with
  | EmptyString => true
  | String a s' => p a && all p s'
  end.

(** The longest prefix of characters satisfying [p], and what follows. *)
Fixpoint span (p : ascii -> bool) (s : string) : string * string :=
  match s with
  | EmptyString => (EmptyString, EmptyString)
  | String a s' =>
      if p a then let '(x, y) := span p s' in (String a x, y)
      else (EmptyString, s)
  end.

(** A string whose head fails [p], or the empty string. *)
Definition stops (p : ascii -> bool) (y : string) : Prop :=
  match y with
  | EmptyString => True
  | String g _ => p g = false
  end.

Definition is_lower (c : ascii) : bool :=
  (97 <=? nat_of_ascii c) && (nat_of_ascii c <=? 122).

(** Canonicalize of the regular-expression flag [i], on the characters it
    can identify with an ASCII pattern character: ASCII letters are
    compared in upper case, any other character only equals itself. *)
Definition canonicalize (c : ascii) : ascii :=
  if is_lower c then ascii_of_nat (nat_of_ascii c - 32) else c.

Fixpoint fold_case (s : string) : string :=
  match s with
  | EmptyString => EmptyString
  | String a s' => String (canonicalize a) (fold_case s')
  end.

Definition is_digit (c : ascii) : bool :=
  (48 <=? nat_of_ascii c) && (nat_of_ascii c <=? 57).

Definition is_upper (c : ascii) : bool :=
  (65 <=? nat_of_ascii c) && (nat_of_ascii c <=? 90).

(** The class [\w]. *)
Definition is_word (c : ascii) : bool :=
  is_lower c || is_upper c || is_digit c || Ascii.eqb c "_".

(** The class [[^x]]. *)
Definition is_not (x c : ascii) : bool := negb (Ascii.eqb c x).

(** A string written with an apostrophe for each double quote. *)
Fixpoint quotes (s : string) : string :=
  match s with
  | EmptyString => EmptyString
  | String c s' => String (if Ascii.eqb c "'" then "034"%char else c) (quotes s')
  end.

Definition concat (ls : list string) : string :=
  foldr String.append EmptyString ls.

(** Number::toString of a non-negative integer index. *)
Definition of_nat (n : nat) : string :=
  NilZero.string_of_uint (Nat.to_uint n).

End Str.

(** ** Regular expressions

    A backtracking matcher for the fragment of the JavaScript regular
    expressions the source uses: literals, character classes, sequence,
    alternation (left alternative first), greedy [*] and [+] on a class, and
    capture groups. *)

Module Regex.

Inductive regex : Type :=
| Eps
| Lit (c : ascii)
| Cls (p : ascii -> bool)
| Seq (r1 r2 : regex)
| Alt (r1 r2 : regex)
| Star (p : ascii -> bool)
| Plus (p : ascii -> bool)
| Group (r : regex).

(** A string of literal characters. *)
Fixpoint lits (s : string) : regex :=
  match s with
  | EmptyString => Eps
  | String c s' => Seq (Lit c) (lits s')
  end.

(** The state of a match in progress and, at the end, its result: the text
    matched so far, the captures (in order of their closing parenthesis;
    the patterns below have at most one) and the input that remains. *)
Record rmatch : Type := RMatch {
  matched : string;
  groups : list string;
  rest : string
}.

Definition same_char (ignore_case : bool) (c a : ascii) : bool :=
  if ignore_case then Ascii.eqb (Str.canonicalize c) (Str.canonicalize a)
  else Ascii.eqb c a.

Definition advance (a : ascii) (s' : string) (m : rmatch) : rmatch :=
  RMatch (matched m +:+ String a EmptyString) (groups m) s'.

(** Greedy iteration of a class: take one more character when the class
    allows it and the rest of the pattern then succeeds, else stop here. *)
Fixpoint star (p : ascii -> bool) (s : string) (acc : string)
    (gs : list string) (k : rmatch -> option rmatch) : option rmatch :=
  match s with
  | String a s' =>
      if p a then
        match star p s' (acc +:+ String a EmptyString) gs k with
        | Some m => Some m
        | None => k (RMatch acc gs s)
        end
      else k (RMatch acc gs s)
  | EmptyString => k (RMatch acc gs EmptyString)
  end.

Fixpoint run (ic : bool) (r : regex) (m : rmatch)
    (k : rmatch -> option rmatch) : option rmatch :=
  match r with
  | Eps => k m
  | Lit c =>
      match rest m with
      | String a s' => if same_char ic c a then k (advance a s' m) else None
      | EmptyString => None
      end
  | Cls p =>
      match rest m with
      | String a s' => if p a then k (advance a s' m) else None
      | EmptyString => None
      end
  | Seq r1 r2 => run ic r1 m (fun m' => run ic r2 m' k)
  | Alt r1 r2 =>
      match run ic r1 m k with
      | Some m' => Some m'
      | None => run ic r2 m k
      end
  | Star p => star p (rest m) (matched m) (groups m) k
  | Plus p =>
      match rest m with
      | String a s' =>
          if p a then
            star p s' (matched m +:+ String a EmptyString) (groups m) k
          else None
      | EmptyString => None
      end
  | Group r' =>
      run ic r' (RMatch EmptyString (groups m) (rest m))
        (fun m' => k (RMatch (matched m +:+ matched m')
                             (groups m' ++ [matched m']) (rest m')))
  end.

(** A match that starts at the head of [s]. *)
Definition exec (ic : bool) (r : regex) (s : string) : option rmatch :=
  run ic r (RMatch EmptyString [] s) Some.

(** One more character of unmatched text before the first match. *)
Definition push_front (c : ascii) (r : list (string * rmatch) * string)
    : list (string * rmatch) * string :=
  match r with
  | ([], tl) => ([], String c tl)
  | ((lit, m) :: ps, tl) => ((String c lit, m) :: ps, tl)
  end.

(** All matches of a global pattern, left to right and not overlapping,
    each with the unmatched text that precedes it, and the unmatched tail
    (the loop of RegExp.prototype[Symbol.replace] that collects results;
    after an empty match the search resumes one character further).  Each
    step uses one unit of fuel and moves at least one character on. *)
Fixpoint matches_fuel (fuel : nat) (ic : bool) (r : regex) (s : string)
    : list (string * rmatch) * string :=
  match fuel with
  | 0 => ([], s)
  | S n =>
      match exec ic r s with
      | Some m =>
          match matched m, s with
          | EmptyString, EmptyString => ([(EmptyString, m)], EmptyString)
          | EmptyString, String c s' =>
              let '(ps, tl) := push_front c (matches_fuel n ic r s') in
              ((EmptyString, m) :: ps, tl)
          | _, _ =>
              let '(ps, tl) := matches_fuel n ic r (rest m) in
              ((EmptyString, m) :: ps, tl)
          end
      | None =>
          match s with
          | EmptyString => ([], EmptyString)
          | String c s' => push_front c (matches_fuel n ic r s')
          end
      end
  end.

(** One unit of fuel for each character and one for the end of the
    input. *)
Definition matches (ic : bool) (r : regex) (s : string)
    : list (string * rmatch) * string :=
  matches_fuel (S (String.length s)) ic r s.

(** The matches of a string, with more text before the first. *)
Definition prepend (x : string) (r : list (string * rmatch) * string)
    : list (string * rmatch) * string :=
  match r with
  | ([], tl) => ([], x +:+ tl)
  | ((lit, m) :: ps, tl) => ((x +:+ lit, m) :: ps, tl)
  end.

(** The input, put together again from its matches. *)
Fixpoint join (ps : list (string * rmatch)) (tl : string) : string :=
  match ps with
  | [] => tl
  | (lit, m) :: ps' => lit +:+ matched m +:+ join ps' tl
  end.

(** The prefix of [s] that the literal characters [pat] match, and what
    follows it. *)
Fixpoint strip_prefix (ic : bool) (pat s : string) : option (string * string) :=
  match pat with
  | EmptyString => Some (EmptyString, s)
  | String c pat' =>
      match s with
      | String a s' =>
          if same_char ic c a then
            match strip_prefix ic pat' s' with
            | Some (x, r) => Some (String a x, r)
            | None => None
            end
          else None
      | EmptyString => None
      end
  end.

(** [m'] continues the match in progress [m]. *)
Definition extends (m m' : rmatch) : Prop :=
  exists x, matched m' = matched m +:+ x /\ rest m = x +:+ rest m'.

(** String.prototype.replace with a global pattern and a replacer
    function.  The replacer may update a state [St] (the variables it
    closes over); it is called once per match, left to right. *)
Definition replace_step {St : Type} (f : St -> rmatch -> St * string)
    (acc : St * string) (piece : string * rmatch) : St * string :=
  let '(st, out) := acc in
  let '(lit, m) := piece in
  let '(st', rep) := f st m in
  (st', out +:+ lit +:+ rep).

Definition replace {St : Type} (ic : bool) (r : regex)
    (f : St -> rmatch -> St * string) (st : St) (s : string) : St * string :=
  let '(ps, tl) := matches ic r s in
  let '(st', out) := foldl (replace_step f) (st, EmptyString) ps in
  (st', out +:+ tl).

(** The same with a replacement that does not depend on any state. *)
Definition replace_pure (ic : bool) (r : regex) (f : rmatch -> string)
    (s : string) : string :=
  snd (replace ic r (fun (_ : unit) m => (tt, f m)) tt s).

(** String.prototype.replaceAll with a string pattern and a replacement
    string without [$]. *)
Definition replaceAll (pat rep : string) (s : string) : string :=
  replace_pure false (lits pat) (fun _ => rep) s.

(** String.prototype.split with a non-empty separator string. *)
Definition split (sep : string) (s : string) : list string :=
  let '(ps, tl) := matches false (lits sep) s in
  map fst ps ++ [tl].

End Regex.

Import Regex.

(** ** JavaScript values and completions *)

Module JS.

#[local] Set Warnings "-register-all".

(** The values JSON.parse can return.  A number keeps its source text; no
    definition below computes with numbers.  An object is its own
    properties. *)
Inductive jsvalue : Type :=
| VNull
| VBool (b : bool)
| VNum (lexeme : string)
| VStr (s : string)
| VArr (elems : list jsvalue)
| VObj (props : gmap string jsvalue).

Inductive error : Type :=
| SyntaxError
| TypeError.

(** The outcome of evaluating an expression: a value or a thrown error. *)
Inductive completion (A : Type) : Type :=
| Ok (a : A)
| Throw (e : error).
Arguments Ok {A} a.
Arguments Throw {A} e.

Definition bind {A B : Type} (c : completion A) (f : A -> completion B)
    : completion B :=
  match c with
  | Ok a => f a
  | Throw e => Throw e
  end.

(** The line feed and the tab character. *)
Definition LF : string := String "010" EmptyString.
Definition TAB : string := String "009" EmptyString.

(** The properties of an array or of a string: its elements under their
    indices. *)
Definition index_props {A : Type} (l : list A) : gmap string A :=
  list_to_map (imap (fun i x => (Str.of_nat i, x)) l).

Definition chars (s : string) : list string :=
  map (fun a => String a EmptyString) (list_ascii_of_string s).

(** The own enumerable properties of a value, as the spread [{...v}]
    copies them. *)
Definition own_props (v : jsvalue) : gmap string jsvalue :=
  match v with
  | VObj props => props
  | VArr elems => index_props elems
  | VStr s => index_props (map VStr (chars s))
  | VNull | VBool _ | VNum _ => ∅
  end.

(** The property [key] of [v], read as [v.key]: reading from null throws;
    a missing property is [undefined] ([None]).  No prototype of a JSON
    value has a property of the names read below ([result], [left],
    [right]), so only own properties are looked up. *)
Definition get (v : jsvalue) (key : string) : completion (option jsvalue) :=
  match v with
  | VNull => Throw TypeError
  | _ => Ok (own_props v !! key)
  end.

(** [x ?? d]: the default replaces undefined and null only. *)
Definition nullish_or (x : option jsvalue) (d : jsvalue) : jsvalue :=
  match x with
  | None | Some VNull => d
  | Some v => v
  end.

End JS.

Import JS.

Notation "'let*' x ':=' c1 'in' c2" := (JS.bind c1 (fun x => c2))
  (at level 10, x name, c1 at level 100, c2 at level 200).

(** ** JSON.parse

    The definitions of the program take JSON.parse as a parameter.  [Json.parse]
    is the JSON grammar on the strings of the model, for evaluating them on
    concrete inputs: white space, the three literals, numbers, strings with
    their escapes, arrays and objects (a repeated key keeps its last value).
    An escape [\uXXXX] above the characters of the model is refused. *)

Module Json.

Definition is_ws (c : ascii) : bool :=
  Ascii.eqb c " " || Ascii.eqb c "009" || Ascii.eqb c "010"
  || Ascii.eqb c "013".

Definition skip_ws (s : string) : string := snd (Str.span is_ws s).

Definition hex_digit (c : ascii) : option nat :=
  let n := nat_of_ascii c in
  if Str.is_digit c then Some (n - 48)
  else if (97 <=? n) && (n <=? 102) then Some (n - 87)
  else if (65 <=? n) && (n <=? 70) then Some (n - 55)
  else None.

Definition escape (e : ascii) : option ascii :=
  match e with
  | "034"%char => Some "034"%char
  | "\"%char => Some "\"%char
  | "/"%char => Some "/"%char
  | "b"%char => Some "008"%char
  | "f"%char => Some "012"%char
  | "n"%char => Some "010"%char
  | "r"%char => Some "013"%char
  | "t"%char => Some "009"%char
  | _ => None
  end.

(** The characters of a string literal, after its opening quote. *)
Fixpoint parse_string (s : string) : option (string * string) :=
  match s with
  | EmptyString => None
  | String "034" r => Some (EmptyString, r)
  | String "\" (String "u" (String h1 (String h2 (String h3 (String h4 r))))) =>
      match hex_digit h1, hex_digit h2, hex_digit h3, hex_digit h4 with
      | Some 0, Some 0, Some d3, Some d4 =>
          match parse_string r with
          | Some (x, r') => Some (String (ascii_of_nat (16 * d3 + d4)) x, r')
          | None => None
          end
      | _, _, _, _ => None
      end
  | String "\" (String e r) =>
      match escape e, parse_string r with
      | Some c, Some (x, r') => Some (String c x, r')
      | _, _ => None
      end
  | String c r =>
      if nat_of_ascii c <? 32 then None
      else match parse_string r with
           | Some (x, r') => Some (String c x, r')
           | None => None
           end
  end.

Definition digits1 (s : string) : option (string * string) :=
  match Str.span Str.is_digit s with
  | (EmptyString, _) => None
  | (ds, r) => Some (ds, r)
  end.

(** The text of a number: an optional minus sign; a zero or a run of
    digits that does not start with a zero; an optional fraction, a dot and
    at least one digit; an optional exponent, [e] or [E], an optional sign
    and at least one digit. *)
Definition parse_number (s : string) : option (string * string) :=
  let '(sign, s1) :=
    match s with
    | String "-" r => ("-", r)
    | _ => (EmptyString, s)
    end in
  '(int, s2) ←
    match s1 with
    | String "0" r => Some ("0", r)
    | _ => digits1 s1
    end;
  '(frac, s3) ←
    match s2 with
    | String "." r => '(ds, r') ← digits1 r; Some ("." +:+ ds, r')
    | _ => Some (EmptyString, s2)
    end;
  '(exp, s4) ←
    match s3 with
    | String e r =>
        if Ascii.eqb e "e" || Ascii.eqb e "E" then
          let '(sg, r1) :=
            match r with
            | String "+" r1 => ("+", r1)
            | String "-" r1 => ("-", r1)
            | _ => (EmptyString, r)
            end in
          '(ds, r') ← digits1 r1;
          Some (String e sg +:+ ds, r')
        else Some (EmptyString, s3)
    | EmptyString => Some (EmptyString, s3)
    end;
  Some (sign +:+ int +:+ frac +:+ exp, s4).

Definition literal (word : string) (v : jsvalue) (s : string)
    : option (jsvalue * string) :=
  if String.prefix word s
  then Some (v, String.substring (String.length word)
                  (String.length s - String.length word) s)
  else None.

Fixpoint parse_value (fuel : nat) (s : string) : option (jsvalue * string) :=
  match fuel with
  | 0 => None
  | S n =>
      match skip_ws s with
      | String "n" _ => literal "null" VNull (skip_ws s)
      | String "t" _ => literal "true" (VBool true) (skip_ws s)
      | String "f" _ => literal "false" (VBool false) (skip_ws s)
      | String "034" r => '(x, r') ← parse_string r; Some (VStr x, r')
      | String "[" r =>
          match skip_ws r with
          | String "]" r' => Some (VArr [], r')
          | _ => '(vs, r') ← parse_elements n r; Some (VArr vs, r')
          end
      | String "{" r =>
          match skip_ws r with
          | String "}" r' => Some (VObj ∅, r')
          | _ => '(m, r') ← parse_members n ∅ r; Some (VObj m, r')
          end
      | s' => '(x, r') ← parse_number s'; Some (VNum x, r')
      end
  end
with parse_elements (fuel : nat) (s : string)
    : option (list jsvalue * string) :=
  match fuel with
  | 0 => None
  | S n =>
      '(v, r) ← parse_value n s;
      match skip_ws r with
      | String "," r' => '(vs, r'') ← parse_elements n r'; Some (v :: vs, r'')
      | String "]" r' => Some ([v], r')
      | _ => None
      end
  end
with parse_members (fuel : nat) (acc : gmap string jsvalue) (s : string)
    : option (gmap string jsvalue * string) :=
  match fuel with
  | 0 => None
  | S n =>
      match skip_ws s with
      | String "034" r =>
          '(key, r1) ← parse_string r;
          match skip_ws r1 with
          | String ":" r2 =>
              '(v, r3) ← parse_value n r2;
              match skip_ws r3 with
              | String "," r4 => parse_members n (<[key := v]> acc) r4
              | String "}" r4 => Some (<[key := v]> acc, r4)
              | _ => None
              end
          | _ => None
          end
      | _ => None
      end
  end.

Definition parse (s : string) : completion jsvalue :=
  match parse_value (2 * String.length s + 2) s with
  | Some (v, r) =>
      match skip_ws r with
      | EmptyString => Ok v
      | _ => Throw SyntaxError
      end
  | None => Throw SyntaxError
  end.

End Json.

(** ** The conversion of a string to an array subscript

    The custom-view component takes the conversion [+children.toString()]
    as a parameter.  [Num.subscript] reads a run of decimal digits, and the
    empty string as 0, as that conversion does, for evaluating the component
    on concrete inputs; it gives no subscript for any other string. *)

Module Num.

Fixpoint decimal (acc : nat) (s : string) : option nat :=
  match s with
  | EmptyString => Some acc
  | String c s' =>
      if Str.is_digit c then decimal (10 * acc + (nat_of_ascii c - 48)) s'
      else None
  end.

Definition subscript (s : string) : option nat := decimal 0 s.

End Num.

(** ** ChatContent *)

Module ChatContent.

(** *** The patterns of the source *)

(** [/<dbgpt-view[^>]*>[^<]*<\/dbgpt-view>/gi] *)
Definition view_tag : regex :=
  Seq (lits "<dbgpt-view")
    (Seq (Star (Str.is_not ">"))
      (Seq (Lit ">")
        (Seq (Star (Str.is_not "<")) (lits "</dbgpt-view>")))).

(** The match of [view_tag] at the head of [s], found without going back:
    the opening name in any case, the attributes up to the first [>], the
    body up to the first [<], the closing tag in any case. *)
Definition view_tag_at (s : string) : option rmatch :=
  match strip_prefix true "<dbgpt-view" s with
  | Some (o, s1) =>
      let '(a, s2) := Str.span (Str.is_not ">") s1 in
      match s2 with
      | String g s3 =>
          if Ascii.eqb g ">" then
            let '(b, s4) := Str.span (Str.is_not "<") s3 in
            match strip_prefix true "</dbgpt-view>" s4 with
            | Some (c, s5) =>
                Some (RMatch (o +:+ a +:+ ">" +:+ b +:+ c) [] s5)
            | None => None
            end
          else None
      | EmptyString => None
      end
  | None => None
  end.

(** The shape of an embedded-view tag. *)
Definition tag_shape (tag : string) : Prop :=
  exists o a b c,
    tag = o +:+ a +:+ ">" +:+ b +:+ c /\
    Str.fold_case o = "<DBGPT-VIEW" /\
    Str.all (Str.is_not ">") a = true /\
    Str.all (Str.is_not "<") b = true /\
    Str.fold_case c = "</DBGPT-VIEW>".

(** [/<[^>]*>|<\/[^>]*>/gm] *)
Definition any_tag : regex :=
  Alt (Seq (Lit "<") (Seq (Star (Str.is_not ">")) (Lit ">")))
      (Seq (lits "</") (Seq (Star (Str.is_not ">")) (Lit ">"))).

(** [/<table(\w*=[^>]+)>/gi] and [/<tr(\w*=[^>]+)>/gi] *)
Definition glued_attribute (tag : string) : regex :=
  Seq (lits tag)
    (Seq (Group (Seq (Star Str.is_word)
                   (Seq (Lit "=") (Plus (Str.is_not ">")))))
         (Lit ">")).

(** [$1] in a replacement string. *)
Definition group1 (m : rmatch) : string := nth 0 (groups m) EmptyString.

(** *** Status mapper *)

Inductive icon : Type :=
| ClockCircleOutlined
| LoadingOutlined
| CloseOutlined
| CheckOutlined.

Record status_style : Type := StatusStyle {
  bgClass : string;
  icon_of : icon
}.

Definition pluginViewStatusMapper : gmap string status_style :=
  {[ "todo" := StatusStyle "bg-gray-500" ClockCircleOutlined;
     "runing" := StatusStyle "bg-blue-500" LoadingOutlined;
     "failed" := StatusStyle "bg-red-500" CloseOutlined;
     "completed" := StatusStyle "bg-green-500" CheckOutlined ]}.

(** The mapper is an object literal, so a key it does not own is looked
    up in Object.prototype.  Each of these members is a function or the
    prototype itself. *)
Definition Object_prototype : list string :=
  [ "constructor"; "hasOwnProperty"; "isPrototypeOf";
    "propertyIsEnumerable"; "toLocaleString"; "toString"; "valueOf";
    "__proto__"; "__defineGetter__"; "__defineSetter__";
    "__lookupGetter__"; "__lookupSetter__" ].

Inductive member : Type :=
| Own (st : status_style)
| Inherited.

(** [pluginViewStatusMapper[status]] *)
Definition mapper_get (status : string) : option member :=
  match pluginViewStatusMapper !! status with
  | Some st => Some (Own st)
  | None =>
      if bool_decide (status ∈ Object_prototype) then Some Inherited
      else None
  end.

(** [const { bgClass, icon } = pluginViewStatusMapper[status] ?? {}]:
    an inherited member has neither property. *)
Definition status_lookup (status : string) : option string * option icon :=
  match mapper_get status with
  | Some (Own st) => (Some (bgClass st), Some (icon_of st))
  | Some Inherited | None => (None, None)
  end.

(** *** formatMarkdownVal *)

Definition formatMarkdownVal (val : string) : string :=
  replace_pure true (glued_attribute "<tr")
    (fun m => "<tr " +:+ group1 m +:+ ">")
    (replace_pure true (glued_attribute "<table")
       (fun m => "<table " +:+ group1 m +:+ ">")
       (replaceAll "\n" LF val)).

(** What the first step of formatMarkdownVal is to compute: each backslash
    followed by [n] becomes a line feed. *)
Fixpoint unescape_newlines (s : string) : string :=
  match s with
  | EmptyString => EmptyString
  | String a t =>
      match t with
      | String b s' =>
          if Ascii.eqb a "\" && Ascii.eqb b "n"
          then String "010" (unescape_newlines s')
          else String a (unescape_newlines t)
      | EmptyString => String a EmptyString
      end
  end.

(** The call [formatMarkdownVal(x)] on a value of any type: [replaceAll]
    is a method of strings only. *)
Definition call_formatMarkdownVal (x : jsvalue) : completion string :=
  match x with
  | VStr val => Ok (formatMarkdownVal val)
  | _ => Throw TypeError
  end.

(** *** getRobotContext *)

Section Runtime.

(** JSON.parse, of the JavaScript runtime. *)
Variable JSON_parse : string -> completion jsvalue.

(** The object [{ left: '', right: '' }]. *)
Definition empty_panes : jsvalue :=
  VObj {[ "left" := VStr EmptyString; "right" := VStr EmptyString ]}.

(** The result and what was written to the console. *)
Definition getRobotContext (context : string) : jsvalue * list error :=
  match JSON_parse context with
  | Ok robotContext => (robotContext, [])
  | Throw e => (empty_panes, [e])
  end.

(** [const { left = '', right = '' } = robotContext]: a default replaces
    undefined only. *)
Definition or_default (x : option jsvalue) (d : jsvalue) : jsvalue :=
  match x with
  | None => d
  | Some v => v
  end.

Definition panes (robotContext : jsvalue) : completion (jsvalue * jsvalue) :=
  let* left := get robotContext "left" in
  let* right := get robotContext "right" in
  Ok (or_default left (VStr EmptyString),
      or_default right (VStr EmptyString)).

(** The context of a message: a string, or an object that names a
    template. *)
Inductive context : Type :=
| Text (text : string)
| Template (template_name template_introduce : string).

(** [getRobotContext(context as string)]: JSON.parse converts its
    argument to a string, an object to [[object Object]]. *)
Definition context_string (ctx : context) : string :=
  match ctx with
  | Text context => context
  | Template _ _ => "[object Object]"
  end.

Definition robotContext (ctx : context) : jsvalue * list error :=
  getRobotContext (context_string ctx).

(** *** The tag extractor: the first useMemo of ChatContent *)

(** A cached view, [{...pluginContext, result: ...}]: the [result]
    property, always a string, and every other property. *)
Record DBGPTView : Type := View {
  fields : gmap string jsvalue;
  result : string
}.

(** The variables the replacer closes over, and the console. *)
Record closure : Type := Closure {
  cacheIndex : nat;
  cachePluginContext : list DBGPTView;
  console : list error
}.

(** [matchVal.replaceAll('\n', '\\n').replace(/<[^>]*>|<\/[^>]*>/gm, '')] *)
Definition pluginVal (matchVal : string) : string :=
  replace_pure false any_tag (fun _ => EmptyString)
    (replaceAll LF "\n" matchVal).

(** [{...pluginContext, result: formatMarkdownVal(pluginContext.result ?? '')}] *)
Definition cache_entry (pluginContext : jsvalue) : completion DBGPTView :=
  let* r := get pluginContext "result" in
  let* formatted := call_formatMarkdownVal (nullish_or r (VStr EmptyString)) in
  Ok (View (delete "result" (own_props pluginContext)) formatted).

(** What the first step of [pluginVal] is to compute: each line feed
    becomes a backslash followed by [n]. *)
Fixpoint escape_newlines (s : string) : string :=
  match s with
  | EmptyString => EmptyString
  | String a s' =>
      if Ascii.eqb a "010" then "\n" +:+ escape_newlines s'
      else String a (escape_newlines s')
  end.

(** The body of the [try] block, up to the push. *)
Definition parse_view (matchVal : string) : completion DBGPTView :=
  let* pluginContext := JSON_parse (pluginVal matchVal) in
  cache_entry pluginContext.

Definition placeholder (index : nat) : string :=
  "<custom-view>" +:+ Str.of_nat index +:+ "</custom-view>".

(** The replacer of the source, with its [try] and [catch]. *)
Definition replacer (st : closure) (m : rmatch) : closure * string :=
  let matchVal := matched m in
  match parse_view matchVal with
  | Ok entry =>
      (Closure (S (cacheIndex st)) (cachePluginContext st ++ [entry])
               (console st),
       placeholder (cacheIndex st))
  | Throw e =>
      (Closure (cacheIndex st) (cachePluginContext st) (console st ++ [e]),
       matchVal)
  end.

Record memo : Type := Memo {
  relations : list string;
  value : string;
  cache : list DBGPTView;
  logged : list error
}.

(** The replace call on [value]. *)
Definition extract_views (value : string) : closure * string :=
  replace true view_tag replacer (Closure 0 [] []) value.

Definition relations_separator : string := TAB +:+ "relations:".

(** The first element of [context.split('\trelations:')]. *)
Definition text_part (context : string) : string :=
  nth 0 (split relations_separator context) EmptyString.

Definition extractor (ctx : context) : memo :=
  match ctx with
  | Template _ _ => Memo [] EmptyString [] []
  | Text context =>
      let parts := split relations_separator context in
      let value := text_part context in
      let relations :=
        match parts !! 1 with
        | None | Some EmptyString => []
        | Some relation => split "," relation
        end in
      let '(st, result) := extract_views value in
      Memo relations result (cachePluginContext st) (console st)
  end.

(** *** What the extractor is to compute

    The embedded-view tags of a text, left to right, each with the text
    before it, and the text after the last tag. *)
Definition tagged (p : string * rmatch) : string * string :=
  (p.1, matched p.2).

Definition view_tags (text : string) : list (string * string) * string :=
  let '(ps, tl) := matches true view_tag text in
  (map tagged ps, tl).

(** The output for the tags [ps]: a tag that yields a view becomes the
    placeholder of the next free index, any other tag stays as it
    is. *)
Fixpoint substitute (index : nat) (ps : list (string * string)) : string :=
  match ps with
  | [] => EmptyString
  | (lit, tag) :: ps' =>
      match parse_view tag with
      | Ok _ => lit +:+ placeholder index +:+ substitute (S index) ps'
      | Throw _ => lit +:+ tag +:+ substitute index ps'
      end
  end.

(** The views of the tags that yield one, and the errors of the others. *)
Fixpoint views (ps : list (string * string)) : list DBGPTView :=
  match ps with
  | [] => []
  | (_, tag) :: ps' =>
      match parse_view tag with
      | Ok entry => entry :: views ps'
      | Throw _ => views ps'
      end
  end.

Fixpoint failures (ps : list (string * string)) : list error :=
  match ps with
  | [] => []
  | (_, tag) :: ps' =>
      match parse_view tag with
      | Ok _ => failures ps'
      | Throw e => e :: failures ps'
      end
  end.


(** A tag whose payload parses to a value of the type DBGPTView allows:
    not null, with a [result] that is missing, null or a string. *)
Definition record_shaped (tag : string) : Prop :=
  exists v r,
    JSON_parse (pluginVal tag) = Ok v /\ v <> VNull /\
    nullish_or (own_props v !! "result") (VStr EmptyString) = VStr r.

(** The view of a tag of that kind: the properties of the value its
    payload parses to, but for [result], and as [result] the formatted
    string. *)
Definition view_of (tag : string) (entry : DBGPTView) : Prop :=
  exists v r,
    JSON_parse (pluginVal tag) = Ok v /\ v <> VNull /\
    nullish_or (own_props v !! "result") (VStr EmptyString) = VStr r /\
    fields entry = delete "result" (own_props v) /\
    result entry = formatMarkdownVal r.

(** The tags [ps] marked one by one: [true] for the tags of that kind,
    [false] for the others. *)
Definition marks (ps : list (string * string)) (mask : list bool) : Prop :=
  Forall2 (fun p b => b = true <-> record_shaped p.2) ps mask.



(** *** The custom-view component *)

(** The array index that [+children.toString()] denotes as a subscript,
    if it denotes one; the conversion is the runtime's. *)
Variable subscript : string -> option nat.

(** ToString of a value that is not a string, of the runtime: it throws
    a TypeError where no conversion to a primitive is callable, as on an
    object parsed from JSON that has a [toString] property of its own.
    And preprocessLaTeX of the markdown configuration. *)
Variable ToString : jsvalue -> completion string.
Variable preprocessLaTeX : string -> string.

Inductive card_body : Type :=
| Markdown (md : string)
| ErrMsg (err_msg : option jsvalue).

Inductive node : Type :=
| Children (children : string)
| Card (bg : option string) (name : option jsvalue) (ic : option icon)
       (body : card_body).

(** The property key a status is converted to in
    [pluginViewStatusMapper[status]]. *)
Definition property_key (status : option jsvalue) : completion string :=
  match status with
  | None => Ok "undefined"
  | Some (VStr s) => Ok s
  | Some v => ToString v
  end.

Definition custom_view (cache : list DBGPTView) (children : string)
    : completion node :=
  match subscript children ≫= (cache !!.) with
  | None => Ok (Children children)
  | Some entry =>
      let name := fields entry !! "name" in
      let status := fields entry !! "status" in
      let err_msg := fields entry !! "err_msg" in
      let* key := property_key status in
      let '(bg, ic) := status_lookup key in
      Ok (Card bg name ic
            (match result entry with
             | EmptyString => ErrMsg err_msg
             | r => Markdown (preprocessLaTeX r)
             end))
  end.

End Runtime.

End ChatContent.

(** ** VisTabs *)

Module VisTabs.

Record VisTabsData : Type := {
  name : string;
  status : string;
  num : Z;
  task_id : string;
  agent : string;
  avatar : string;
  markdown : string
}.

Definition getLastActiveKey (data : list VisTabsData) : string :=
  match last data with
  | Some d => task_id d
  | None => EmptyString
  end.

(** The component between two events: the [data] prop of the last render,
    the two pieces of state, and the [data] the TASK_CLICK handler closes
    over.  The handler is registered by an effect without dependencies, so
    it is the [setTabActiveByUser] of the first render. *)
Record component : Type := Component {
  data : list VisTabsData;
  activeKey : string;
  isUserActive : bool;
  handler_data : list VisTabsData
}.

(** The first render, and the effect on [data] that follows it. *)
Definition mount (data : list VisTabsData) : component :=
  let activeKey := getLastActiveKey data in
  let isUserActive := false in
  Component data
    (if negb isUserActive then getLastActiveKey data else activeKey)
    isUserActive data.

(** A render with a new [data] prop, and the effect on [data]. *)
Definition receive (data' : list VisTabsData) (c : component) : component :=
  Component data'
    (if negb (isUserActive c) then getLastActiveKey data' else activeKey c)
    (isUserActive c) (handler_data c).

(** [setTabActiveByUser(key)], in a render whose [data] prop is [data]. *)
Definition setTabActiveByUser (data : list VisTabsData) (key : string)
    (c : component) : component :=
  Component (VisTabs.data c) key
    (if String.eqb key (getLastActiveKey data) then false else true)
    (handler_data c).

(** [onChange] of the tab strip: the function of the current render. *)
Definition onChange (key : string) (c : component) : component :=
  setTabActiveByUser (data c) key c.

(** Modelled from the spec: the event emitter [ee] of utils/event-emitter,
    which is not among the sources.  Emitting TASK_CLICK with a payload
    calls the handler the component registered with [ee.on] on that
    payload's [taskId]. *)
Definition on_TASK_CLICK (taskId : string) (c : component) : component :=
  setTabActiveByUser (handler_data c) taskId c.

Inductive event : Type :=
| Receive (data : list VisTabsData)
| Change (key : string)
| TaskClick (taskId : string).

Definition step (c : component) (e : event) : component :=
  match e with
  | Receive data' => receive data' c
  | Change key => onChange key c
  | TaskClick taskId => on_TASK_CLICK taskId c
  end.

Definition run_events (c : component) (es : list event) : component :=
  foldl step c es.

(** One more record arrives at the end of the output sequence. *)
Definition append_record (c : component) (d : VisTabsData) : component :=
  receive (data c ++ [d]) c.

(** Auto-follow: unless the user is driving, the last tab is active. *)
Definition follows (c : component) : Prop :=
  isUserActive c = false -> activeKey c = getLastActiveKey (data c).

(** A record of the task [id], for evaluating on concrete inputs. *)
Definition tab (id : string) : VisTabsData :=
  {| name := id; status := "completed"; num := 0; task_id := id;
     agent := id; avatar := EmptyString; markdown := EmptyString |}.

(** Events of the tab strip and of arriving data, without the emitter. *)
Definition internal (e : event) : bool :=
  match e with
  | TaskClick _ => false
  | _ => true
  end.

End VisTabs.


(** ** The rest of ChatContent: formatMarkdownValForAgent, UserIcon and
    what the component returns *)

Module ChatContentView.

Import ChatContent.

(** The two replace calls of formatMarkdownValForAgent. *)
Definition formatMarkdownValForAgent (val : string) : string :=
  replace_pure true (glued_attribute "<tr")
    (fun m => "<tr " +:+ group1 m +:+ ">")
    (replace_pure true (glued_attribute "<table")
       (fun m => "<table " +:+ group1 m +:+ ">")
       val).

(** The call [formatMarkdownValForAgent(x)] on a value of any type:
    [val?.replace(...)] is undefined on null, and the chain stops there;
    [replace] is a method of strings only. *)
Definition call_formatMarkdownValForAgent (x : jsvalue)
    : completion (option string) :=
  match x with
  | VNull => Ok None
  | VStr val => Ok (Some (formatMarkdownValForAgent val))
  | _ => Throw TypeError
  end.

Section Runtime.

(** JSON.parse, and whether the text of a number denotes zero, both of the
    JavaScript runtime. *)
Variable JSON_parse : string -> completion jsvalue.
Variable is_zero : string -> bool.

Definition ToBoolean (v : jsvalue) : bool :=
  match v with
  | VNull => false
  | VBool b => b
  | VNum x => negb (is_zero x)
  | VStr s => negb (String.eqb s EmptyString)
  | VArr _ | VObj _ => true
  end.

(** [v?.key] *)
Definition optional_get (v : jsvalue) (key : string) : option jsvalue :=
  match v with
  | VNull => None
  | _ => own_props v !! key
  end.

Definition default_avatar : jsvalue := VStr "/agents/sre.png".

(** UserIcon, from the item of the local storage ([None] when the storage
    has none) to the [src] of the image. *)
Definition UserIcon (item : option string) : completion jsvalue :=
  let* user := JSON_parse (match item with
                           | Some stored => stored
                           | None => EmptyString
                           end) in
  Ok (match optional_get user "avatar_url" with
      | Some url => if ToBoolean url then url else default_avatar
      | None => default_avatar
      end).

(** The props of ChatContent that its body reads, with [scene], the
    parameter of the query string, [None] when there is none. *)
Record props : Type := Props {
  role : string;
  content_context : context;
  thinking : bool;
  messages : list context;
  scene_param : option string
}.

(** What the component puts inside the frame of a robot message.  The
    arguments of preprocessLaTeX stand for the markdown panes. *)
Inductive part : Type :=
| TemplateLink (label link : string)
| AgentPanes (question : context) (left right : option string)
| MarkdownPane (md : string) (cache : list DBGPTView).

Record rendered : Type := Rendered {
  className : string;
  question_part : option context;
  robot_parts : option (list part);
  thinking_part : bool
}.

(** [typeof context === 'object' && (...)] *)
Definition template_part (ctx : context) : list part :=
  match ctx with
  | Template template_name template_introduce =>
      [TemplateLink ("[" +:+ template_name +:+ "]: ")
         (if String.eqb template_introduce EmptyString then "More Details"
          else template_introduce)]
  | Text _ => []
  end.

(** [typeof context === 'string' && scene === 'chat_agent' && (...)], with
    [messages[0].context] and the two calls of formatMarkdownValForAgent. *)
Definition agent_part (ctx : context) (scene : string)
    (messages : list context) (left right : jsvalue)
    : completion (list part) :=
  match ctx with
  | Text _ =>
      if String.eqb scene "chat_agent" then
        match messages with
        | [] => Throw TypeError
        | question :: _ =>
            let* l := call_formatMarkdownValForAgent left in
            let* r := call_formatMarkdownValForAgent right in
            Ok [AgentPanes question l r]
        end
      else Ok []
  | Template _ _ => Ok []
  end.

(** [typeof context === 'string' && scene !== 'chat_agent' && (...)] *)
Definition markdown_part (ctx : context) (scene : string) (m : memo)
    : list part :=
  match ctx with
  | Text _ =>
      if String.eqb scene "chat_agent" then []
      else [MarkdownPane (formatMarkdownVal (value m)) (cache m)]
  | Template _ _ => []
  end.

(** The body of ChatContent. *)
Definition render (p : props) : completion rendered :=
  let scene := default EmptyString (scene_param p) in
  let context := content_context p in
  let isRobot := String.eqb (role p) "view" in
  let m := extractor JSON_parse context in
  let robotContext := (ChatContent.robotContext JSON_parse context).1 in
  let* left_right := panes robotContext in
  let* robot :=
    if isRobot then
      let* agent := agent_part context scene (messages p)
                      left_right.1 left_right.2 in
      Ok (Some (template_part context ++ agent
                ++ markdown_part context scene m))
    else Ok None in
  Ok (Rendered
        ("flex "
         +:+ (if String.eqb scene "chat_agent" && negb (thinking p)
              then "flex-1" else EmptyString)
         +:+ " overflow-hidden")
        (if negb isRobot && false then Some context else None)
        robot
        (false && thinking p
         && match context with
            | Text EmptyString => true
            | _ => false
            end)).

End Runtime.

End ChatContentView.

(** ** The tab items of VisTabs *)

Module VisTabsView.

Import VisTabs.

(** An item of the tab strip: its key, the image and the text of its
    label, and the markdown of its pane (the argument of
    preprocessLaTeX). *)
Record tab_item : Type := TabItem {
  key : string;
  img_src : string;
  img_alt : string;
  label : string;
  children : string
}.

Definition getTabItems (data : list VisTabsData) : list tab_item :=
  map (fun content =>
         TabItem (task_id content)
                 ("/agents/" +:+ avatar content)
                 (agent content +:+ " avatar")
                 (agent content)
                 (markdown content))
      data.

End VisTabsView.

(** * Properties *)

(** ** Strings *)

Module StrFacts.

Lemma app_nil_l (s : string) : EmptyString +:+ s = s.
Proof. reflexivity. Qed.

Lemma app_cons (a : ascii) (s t : string) :
  String a s +:+ t = String a (s +:+ t).
Proof. reflexivity. Qed.

Lemma String_app_nil_r (s : string) : s +:+ EmptyString = s.
Proof. induction s as [|a s IH]; [reflexivity|]. rewrite app_cons, IH. reflexivity. Qed.

Lemma app_assoc (s t u : string) : (s +:+ t) +:+ u = s +:+ (t +:+ u).
Proof.
  induction s as [|a s IH]; [reflexivity|].
  rewrite !app_cons, IH. reflexivity.
Qed.

Lemma length_app (s t : string) :
  String.length (s +:+ t) = String.length s + String.length t.
Proof.
  induction s as [|a s IH]; [reflexivity|].
  rewrite app_cons. simpl. rewrite IH. reflexivity.
Qed.

Lemma span_app (p : ascii -> bool) (s : string) :
  fst (Str.span p s) +:+ snd (Str.span p s) = s.
Proof.
  induction s as [|a s IH]; [reflexivity|]. simpl.
  destruct (p a); [|reflexivity].
  destruct (Str.span p s) as [x y]. simpl in *. rewrite app_cons, IH.
  reflexivity.
Qed.

Lemma span_all (p : ascii -> bool) (s : string) :
  Str.all p (Str.span p s).1 = true.
Proof.
  induction s as [|a s IH]; [reflexivity|]. simpl.
  destruct (p a) eqn:E; [|reflexivity].
  destruct (Str.span p s) as [x y]. simpl in *. rewrite E, IH. reflexivity.
Qed.

Lemma span_stop (p : ascii -> bool) (s : string) (g : ascii) (y : string) :
  (Str.span p s).2 = String g y -> p g = false.
Proof.
  induction s as [|a s IH]; [discriminate|]. simpl.
  destruct (p a) eqn:E.
  - destruct (Str.span p s) as [x y']. simpl in *. exact IH.
  - simpl. intros [= <- _]. exact E.
Qed.

Lemma span_app_stop (p : ascii -> bool) (x y : string) :
  Str.all p x = true -> Str.stops p y -> Str.span p (x +:+ y) = (x, y).
Proof.
  intros Hx Hy. induction x as [|a x IH]; simpl in *.
  - destruct y as [|g y]; [reflexivity|]. simpl in *. rewrite Hy. reflexivity.
  - apply andb_true_iff in Hx. destruct Hx as [Ha Hx].
    rewrite Ha, (IH Hx). reflexivity.
Qed.

Lemma fold_case_app (x y : string) :
  Str.fold_case (x +:+ y) = Str.fold_case x +:+ Str.fold_case y.
Proof.
  induction x as [|a x IH]; [reflexivity|]. rewrite app_cons. simpl.
  rewrite IH. reflexivity.
Qed.

Lemma all_app (p : ascii -> bool) (x y : string) :
  Str.all p (x +:+ y) = Str.all p x && Str.all p y.
Proof.
  induction x as [|a x IH]; [reflexivity|]. simpl. rewrite IH.
  rewrite andb_assoc. reflexivity.
Qed.

Lemma fold_case_one (ch : ascii) (x : string) :
  (forall a, Str.canonicalize a = ch -> a = ch) ->
  Str.fold_case x = String ch EmptyString -> x = String ch EmptyString.
Proof.
  intros Hch H. destruct x as [|a [|b x]]; try discriminate.
  simpl in H. injection H as H. rewrite (Hch a H). reflexivity.
Qed.

(** A character that the flag [i] leaves alone is absent from a string when
    it is absent from the string in upper case. *)
Lemma fold_case_all (ch : ascii) (x : string) :
  Str.canonicalize ch = ch ->
  Str.all (Str.is_not ch) (Str.fold_case x) = true ->
  Str.all (Str.is_not ch) x = true.
Proof.
  intros Hch. induction x as [|a x IH]; [reflexivity|]. simpl. intros H.
  apply andb_true_iff in H. destruct H as [Ha Hx]. rewrite (IH Hx), andb_true_r.
  unfold Str.is_not in *. destruct (Ascii.eqb_spec a ch) as [->|_];
    [|reflexivity].
  rewrite Hch, Ascii.eqb_refl in Ha. discriminate.
Qed.

Lemma fold_case_app_inv (p1 : string) :
  forall p2 x,
    Str.fold_case x = p1 +:+ p2 ->
    exists x1 x2, x = x1 +:+ x2 /\ Str.fold_case x1 = p1 /\ Str.fold_case x2 = p2.
Proof.
  induction p1 as [|c p1 IH]; intros p2 x H.
  - exists EmptyString, x. repeat split. exact H.
  - destruct x as [|a x]; [discriminate|]. simpl in H.
    injection H as Ha Hx. apply IH in Hx.
    destruct Hx as [x1 [x2 [-> [H1 H2]]]].
    exists (String a x1), x2. simpl. rewrite Ha, H1. repeat split. exact H2.
Qed.

End StrFacts.

(** ** The matcher *)

Module RegexFacts.

Import StrFacts.

Lemma extends_refl (m : rmatch) : extends m m.
Proof. exists EmptyString. rewrite String_app_nil_r. split; reflexivity. Qed.

Lemma extends_trans (m1 m2 m3 : rmatch) :
  extends m1 m2 -> extends m2 m3 -> extends m1 m3.
Proof.
  intros [x [Hx1 Hx2]] [y [Hy1 Hy2]]. exists (x +:+ y). split.
  - rewrite Hy1, Hx1. apply app_assoc.
  - rewrite Hx2, Hy2. symmetry. apply app_assoc.
Qed.

Lemma extends_advance (a : ascii) (s' : string) (m : rmatch) :
  rest m = String a s' -> extends m (advance a s' m).
Proof.
  intros H. exists (String a EmptyString). split; [reflexivity|].
  rewrite H. reflexivity.
Qed.

(** Whatever the matcher hands to its continuation continues the match it
    started from: the matched text grows by what the rest loses. *)
Lemma star_sound (p : ascii -> bool) (k : rmatch -> option rmatch)
    (gs : list string) (res : rmatch) :
  forall s acc,
    star p s acc gs k = Some res ->
    exists m', k m' = Some res /\ extends (RMatch acc gs s) m'.
Proof.
  induction s as [|a s IH]; intros acc H; simpl in H.
  - eexists. split; [exact H|]. apply extends_refl.
  - destruct (p a).
    + destruct (star p s (acc +:+ String a EmptyString) gs k) as [m|] eqn:E.
      * injection H as ->. apply IH in E. destruct E as [m' [Hk Hext]].
        exists m'. split; [exact Hk|].
        eapply extends_trans; [|exact Hext].
        apply (extends_advance a s (RMatch acc gs (String a s))).
        reflexivity.
      * eexists. split; [exact H|]. apply extends_refl.
    + eexists. split; [exact H|]. apply extends_refl.
Qed.

Lemma run_sound (ic : bool) (r : regex) :
  forall m k res,
    run ic r m k = Some res ->
    exists m', k m' = Some res /\ extends m m'.
Proof.
  induction r as [|c|p|r1 IH1 r2 IH2|r1 IH1 r2 IH2|p|p|r IH];
    intros m k res H; simpl in H.
  - exists m. split; [exact H|apply extends_refl].
  - destruct (rest m) as [|a s'] eqn:E; [discriminate|].
    destruct (same_char ic c a); [|discriminate].
    eexists. split; [exact H|]. apply extends_advance, E.
  - destruct (rest m) as [|a s'] eqn:E; [discriminate|].
    destruct (p a); [|discriminate].
    eexists. split; [exact H|]. apply extends_advance, E.
  - apply IH1 in H. destruct H as [m1 [H Hext1]].
    apply IH2 in H. destruct H as [m2 [H Hext2]].
    exists m2. split; [exact H|]. eapply extends_trans; eassumption.
  - destruct (run ic r1 m k) as [m'|] eqn:E.
    + injection H as ->. apply IH1 in E. exact E.
    + apply IH2 in H. exact H.
  - apply star_sound in H. destruct m; exact H.
  - destruct (rest m) as [|a s'] eqn:E; [discriminate|].
    destruct (p a); [|discriminate].
    apply star_sound in H. destruct H as [m' [Hk Hext]].
    exists m'. split; [exact Hk|].
    eapply extends_trans; [apply extends_advance, E|exact Hext].
  - apply IH in H. destruct H as [m1 [Hk [x [Hx1 Hx2]]]]. simpl in *.
    eexists. split; [exact Hk|]. exists x. simpl. split.
    + rewrite Hx1. reflexivity.
    + exact Hx2.
Qed.

(** *** Matching without going back *)

Lemma strip_prefix_cons (ic : bool) (c a : ascii) (pat s : string) :
  strip_prefix ic (String c pat) (String a s) =
    if same_char ic c a then
      match strip_prefix ic pat s with
      | Some (x, r) => Some (String a x, r)
      | None => None
      end
    else None.
Proof. reflexivity. Qed.

Lemma run_alt (ic : bool) (r1 r2 : regex) (m : rmatch)
    (k : rmatch -> option rmatch) :
  run ic (Alt r1 r2) m k =
    match run ic r1 m k with
    | Some m' => Some m'
    | None => run ic r2 m k
    end.
Proof. reflexivity. Qed.

Lemma run_seq (ic : bool) (r1 r2 : regex) (m : rmatch)
    (k : rmatch -> option rmatch) :
  run ic (Seq r1 r2) m k = run ic r1 m (fun m' => run ic r2 m' k).
Proof. reflexivity. Qed.

Lemma run_lit (ic : bool) (c : ascii) (m : rmatch)
    (k : rmatch -> option rmatch) :
  run ic (Lit c) m k =
    match rest m with
    | String a s' => if same_char ic c a then k (advance a s' m) else None
    | EmptyString => None
    end.
Proof. reflexivity. Qed.

Lemma strip_prefix_sound (pat : string) :
  forall s x r,
    strip_prefix true pat s = Some (x, r) ->
    s = x +:+ r /\ Str.fold_case x = Str.fold_case pat.
Proof.
  induction pat as [|c pat IH]; intros s x r H; cbn [strip_prefix] in H.
  - injection H as <- <-. split; reflexivity.
  - destruct s as [|a s]; [discriminate|].
    destruct (same_char true c a) eqn:E; [|discriminate].
    destruct (strip_prefix true pat s) as [[x' r']|] eqn:E'; [|discriminate].
    injection H as <- <-. apply IH in E'. destruct E' as [-> Hx].
    split; [reflexivity|]. simpl. rewrite Hx. f_equal.
    symmetry. apply Ascii.eqb_eq. exact E.
Qed.

Lemma strip_prefix_complete (pat : string) :
  forall x r,
    Str.fold_case x = Str.fold_case pat ->
    strip_prefix true pat (x +:+ r) = Some (x, r).
Proof.
  induction pat as [|c pat IH]; intros x r H; destruct x as [|a x];
    try discriminate; [reflexivity|].
  simpl in H. injection H as Ha Hx. rewrite app_cons. simpl.
  unfold same_char. rewrite Ha, Ascii.eqb_refl, (IH x r Hx). reflexivity.
Qed.

Lemma run_lits (ic : bool) (pat : string) :
  forall m k,
    run ic (lits pat) m k =
      match strip_prefix ic pat (rest m) with
      | Some (x, r) => k (RMatch (matched m +:+ x) (groups m) r)
      | None => None
      end.
Proof.
  induction pat as [|c pat IH]; intros m k; simpl.
  - rewrite String_app_nil_r. destruct m; reflexivity.
  - destruct (rest m) as [|a s']; [reflexivity|].
    destruct (same_char ic c a); [|reflexivity].
    rewrite IH. simpl. destruct (strip_prefix ic pat s') as [[x r]|];
      [|reflexivity].
    rewrite app_assoc. reflexivity.
Qed.

(** A greedy class takes all it can when what follows cannot start with a
    character of the class. *)
Lemma star_greedy (p : ascii -> bool) (k : rmatch -> option rmatch)
    (gs : list string) :
  (forall acc a s', p a = true -> k (RMatch acc gs (String a s')) = None) ->
  forall s acc,
    star p s acc gs k =
      k (RMatch (acc +:+ (Str.span p s).1) gs (Str.span p s).2).
Proof.
  intros Hk. induction s as [|a s IH]; intros acc; simpl.
  - rewrite String_app_nil_r. reflexivity.
  - destruct (p a) eqn:E.
    + rewrite IH. destruct (Str.span p s) as [x y]. simpl.
      rewrite app_assoc, app_cons, app_nil_l.
      destruct (k (RMatch (acc +:+ String a x) gs y)); [reflexivity|].
      apply Hk, E.
    + simpl. rewrite String_app_nil_r. reflexivity.
Qed.

Lemma run_star_lit (ic : bool) (p : ascii -> bool) (c : ascii) (r : regex)
    (m : rmatch) (k : rmatch -> option rmatch) :
  (forall a, p a = true -> same_char ic c a = false) ->
  run ic (Seq (Star p) (Seq (Lit c) r)) m k =
    match (Str.span p (rest m)).2 with
    | String g y =>
        if same_char ic c g
        then run ic r (RMatch ((matched m +:+ (Str.span p (rest m)).1)
                               +:+ String g EmptyString) (groups m) y) k
        else None
    | EmptyString => None
    end.
Proof.
  intros Hp. cbn [run]. rewrite star_greedy.
  - reflexivity.
  - intros acc a s' Ha. simpl. rewrite (Hp a Ha). reflexivity.
Qed.

(** A match at the head of [s] splits [s]. *)
Lemma exec_sound (ic : bool) (r : regex) (s : string) (m : rmatch) :
  exec ic r s = Some m -> s = matched m +:+ rest m.
Proof.
  intros H. apply run_sound in H. destruct H as [m' [Hk [x [Hx1 Hx2]]]].
  injection Hk as ->. simpl in *. rewrite Hx1. exact Hx2.
Qed.

Lemma exec_rest_shorter (ic : bool) (r : regex) (s : string) (m : rmatch) :
  exec ic r s = Some m -> matched m <> EmptyString ->
  String.length (rest m) < String.length s.
Proof.
  intros H Hne. apply exec_sound in H. rewrite H, length_app.
  destruct (matched m); [congruence|]. simpl. lia.
Qed.

Lemma matches_fuel_S (n : nat) (ic : bool) (r : regex) (s : string) :
  matches_fuel (S n) ic r s =
    match exec ic r s with
    | Some m =>
        match matched m, s with
        | EmptyString, EmptyString => ([(EmptyString, m)], EmptyString)
        | EmptyString, String c s' =>
            let '(ps, tl) := push_front c (matches_fuel n ic r s') in
            ((EmptyString, m) :: ps, tl)
        | _, _ =>
            let '(ps, tl) := matches_fuel n ic r (rest m) in
            ((EmptyString, m) :: ps, tl)
        end
    | None =>
        match s with
        | EmptyString => ([], EmptyString)
        | String c s' => push_front c (matches_fuel n ic r s')
        end
    end.
Proof. reflexivity. Qed.

(** The fuel of [matches] is enough: more fuel changes nothing. *)
Lemma matches_fuel_enough (ic : bool) (r : regex) :
  forall n1 n2 s,
    String.length s < n1 -> String.length s < n2 ->
    matches_fuel n1 ic r s = matches_fuel n2 ic r s.
Proof.
  induction n1 as [|n1 IH]; intros n2 s H1 H2; [lia|].
  destruct n2 as [|n2]; [lia|]. rewrite !matches_fuel_S.
  destruct (exec ic r s) as [m|] eqn:E.
  - destruct (matched m) as [|a x] eqn:Em.
    + destruct s as [|c s']; [reflexivity|]. simpl in *.
      rewrite (IH n2 s') by lia. reflexivity.
    + assert (String.length (rest m) < String.length s) as Hlt.
      { apply (exec_rest_shorter ic r); [exact E|]. rewrite Em. discriminate. }
      rewrite (IH n2 (rest m)) by lia. reflexivity.
  - destruct s as [|c s']; [reflexivity|]. simpl in *.
    rewrite (IH n2 s') by lia. reflexivity.
Qed.

Lemma matches_nil (ic : bool) (r : regex) :
  exec ic r EmptyString = None -> matches ic r EmptyString = ([], EmptyString).
Proof. intros H. unfold matches. rewrite matches_fuel_S, H. reflexivity. Qed.

Lemma matches_skip (ic : bool) (r : regex) (c : ascii) (s : string) :
  exec ic r (String c s) = None ->
  matches ic r (String c s) = push_front c (matches ic r s).
Proof. intros H. unfold matches. rewrite matches_fuel_S, H. reflexivity. Qed.

Lemma matches_hit (ic : bool) (r : regex) (s : string) (m : rmatch) :
  exec ic r s = Some m -> matched m <> EmptyString ->
  matches ic r s =
    ((EmptyString, m) :: fst (matches ic r (rest m)),
     snd (matches ic r (rest m))).
Proof.
  intros H Hne. pose proof (exec_rest_shorter _ _ _ _ H Hne) as Hlt.
  unfold matches. rewrite matches_fuel_S, H.
  destruct (matched m) as [|a x] eqn:Em; [congruence|].
  rewrite (matches_fuel_enough ic r (String.length s)
             (S (String.length (rest m))) (rest m)) by lia.
  destruct (matches_fuel (S (String.length (rest m))) ic r (rest m)).
  reflexivity.
Qed.

Lemma join_push_front (c : ascii) (x : list (string * rmatch) * string) :
  join (fst (push_front c x)) (snd (push_front c x))
  = String c (join (fst x) (snd x)).
Proof. destruct x as [[|[lit m] ps] tl]; reflexivity. Qed.

(** The matches and the text between them make up the input. *)
Lemma matches_fuel_join (ic : bool) (r : regex) :
  forall n s,
    String.length s < n ->
    join (fst (matches_fuel n ic r s)) (snd (matches_fuel n ic r s)) = s.
Proof.
  induction n as [|n IH]; intros s H; [lia|]. rewrite matches_fuel_S.
  destruct (exec ic r s) as [m|] eqn:E.
  - destruct (matched m) as [|a x] eqn:Em.
    + destruct s as [|c s']; simpl.
      * rewrite Em. reflexivity.
      * simpl in H.
        destruct (push_front c (matches_fuel n ic r s')) as [ps tl] eqn:Ep.
        simpl. rewrite Em. rewrite !app_nil_l.
        pose proof (join_push_front c (matches_fuel n ic r s')) as J.
        rewrite Ep in J. simpl in J. rewrite J, IH by lia. reflexivity.
    + assert (String.length (rest m) < String.length s) as Hlt.
      { apply (exec_rest_shorter ic r); [exact E|]. rewrite Em. discriminate. }
      destruct (matches_fuel n ic r (rest m)) as [ps tl] eqn:Ep.
      simpl. rewrite app_nil_l.
      pose proof (IH (rest m)) as J. rewrite Ep in J. simpl in J.
      rewrite J by lia. symmetry. apply (exec_sound ic r), E.
  - destruct s as [|c s']; [reflexivity|]. simpl in H.
    rewrite join_push_front, IH by lia. reflexivity.
Qed.

Lemma matches_join (ic : bool) (r : regex) (s : string) :
  join (fst (matches ic r s)) (snd (matches ic r s)) = s.
Proof. apply matches_fuel_join. lia. Qed.

(** Every match that [matches] lists is a match at the head of some
    string. *)
Lemma Forall_push_front (P : rmatch -> Prop) (c : ascii)
    (x : list (string * rmatch) * string) :
  Forall (fun p => P p.2) x.1 ->
  Forall (fun p => P p.2) (push_front c x).1.
Proof.
  destruct x as [[|[lit m] ps] tl]; simpl; [constructor|].
  intros H. inversion H; subst. constructor; assumption.
Qed.

Lemma matches_fuel_exec (ic : bool) (r : regex) :
  forall n s,
    Forall (fun p => exists s', exec ic r s' = Some p.2)
           (matches_fuel n ic r s).1.
Proof.
  induction n as [|n IH]; intros s; [constructor|].
  rewrite matches_fuel_S. destruct (exec ic r s) as [m|] eqn:E.
  - destruct (matched m) as [|a x].
    + destruct s as [|c s'].
      * constructor; [exists EmptyString; exact E|constructor].
      * pose proof (Forall_push_front
          (fun m0 => exists s', exec ic r s' = Some m0) c _ (IH s')) as F.
        destruct (push_front c (matches_fuel n ic r s')) as [ps tl].
        constructor; [eexists; exact E|exact F].
    + pose proof (IH (rest m)) as F.
      destruct (matches_fuel n ic r (rest m)) as [ps tl].
      constructor; [eexists; exact E|exact F].
  - destruct s as [|c s']; [constructor|].
    apply (Forall_push_front
             (fun m0 => exists s', exec ic r s' = Some m0)), IH.
Qed.

Lemma matches_exec (ic : bool) (r : regex) (s : string) :
  Forall (fun p => exists s', exec ic r s' = Some p.2) (matches ic r s).1.
Proof. apply matches_fuel_exec. Qed.

(** *** Replacing without state *)

Lemma foldl_pure (f : rmatch -> string) (ps : list (string * rmatch)) :
  forall out,
    foldl (replace_step (fun (_ : unit) m => (tt, f m))) (tt, out) ps =
      (tt, out +:+ Str.concat (map (fun p => p.1 +:+ f p.2) ps)).
Proof.
  induction ps as [|[lit m] ps IH]; intros out; simpl.
  - rewrite String_app_nil_r. reflexivity.
  - rewrite IH, !app_assoc. reflexivity.
Qed.

Lemma replace_pure_unfold (ic : bool) (r : regex) (f : rmatch -> string)
    (s : string) :
  replace_pure ic r f s =
    Str.concat (map (fun p => p.1 +:+ f p.2) (matches ic r s).1)
    +:+ (matches ic r s).2.
Proof.
  unfold replace_pure, replace. destruct (matches ic r s) as [ps tl].
  rewrite foldl_pure. reflexivity.
Qed.

Lemma replace_pure_nil (ic : bool) (r : regex) (f : rmatch -> string) :
  exec ic r EmptyString = None -> replace_pure ic r f EmptyString = EmptyString.
Proof. intros H. rewrite replace_pure_unfold, matches_nil by exact H. reflexivity. Qed.

Lemma replace_pure_skip (ic : bool) (r : regex) (f : rmatch -> string)
    (c : ascii) (s : string) :
  exec ic r (String c s) = None ->
  replace_pure ic r f (String c s) = String c (replace_pure ic r f s).
Proof.
  intros H. rewrite !replace_pure_unfold, matches_skip by exact H.
  destruct (matches ic r s) as [[|[lit m] ps] tl]; reflexivity.
Qed.

Lemma replace_pure_hit (ic : bool) (r : regex) (f : rmatch -> string)
    (s : string) (m : rmatch) :
  exec ic r s = Some m -> matched m <> EmptyString ->
  replace_pure ic r f s = f m +:+ replace_pure ic r f (rest m).
Proof.
  intros H Hne. rewrite !replace_pure_unfold, (matches_hit ic r s m H Hne).
  simpl. rewrite !app_assoc. reflexivity.
Qed.

End RegexFacts.

(** ** The tag extractor *)

Module ChatContentFacts.

Import StrFacts RegexFacts ChatContent.

(** *** formatMarkdownVal *)

Lemma exec_backslash_n (s : string) :
  exec false (lits "\n") s =
    match s with
    | String a (String b s') =>
        if Ascii.eqb a "\" && Ascii.eqb b "n"
        then Some (RMatch "\n" [] s') else None
    | _ => None
    end.
Proof.
  destruct s as [|a [|b s']]; unfold exec; cbn -[Ascii.eqb];
    try reflexivity; rewrite (Ascii.eqb_sym "\" a).
  - destruct (Ascii.eqb a "\"); reflexivity.
  - rewrite (Ascii.eqb_sym "n" b).
    destruct (Ascii.eqb_spec a "\") as [->|_];
      destruct (Ascii.eqb_spec b "n") as [->|_]; reflexivity.
Qed.

(** The first step of formatMarkdownVal computes [unescape_newlines]. *)
Lemma replaceAll_unescape_newlines (s : string) :
  replaceAll "\n" LF s = unescape_newlines s.
Proof.
  unfold replaceAll.
  remember (String.length s) as n eqn:Hn.
  assert (String.length s <= n) as Hle by lia. clear Hn. revert s Hle.
  induction n as [|n IH]; intros s Hle.
  - destruct s; [|simpl in Hle; lia].
    apply replace_pure_nil. reflexivity.
  - destruct s as [|a [|b s']].
    + apply replace_pure_nil. reflexivity.
    + rewrite replace_pure_skip by (rewrite exec_backslash_n; reflexivity).
      rewrite replace_pure_nil by reflexivity. reflexivity.
    + simpl in Hle. simpl unescape_newlines.
      destruct (Ascii.eqb a "\" && Ascii.eqb b "n") eqn:E.
      * rewrite (replace_pure_hit false _ _ _ (RMatch "\n" [] s')).
        -- simpl. rewrite IH by lia. reflexivity.
        -- rewrite exec_backslash_n, E. reflexivity.
        -- discriminate.
      * rewrite replace_pure_skip by (rewrite exec_backslash_n, E; reflexivity).
        rewrite IH by (simpl; lia). reflexivity.
Qed.

(** *** The pattern of an embedded view *)

Lemma same_char_gt (a : ascii) : same_char true ">" a = Ascii.eqb a ">".
Proof. destruct a as [[] [] [] [] [] [] [] []]; reflexivity. Qed.

Lemma same_char_lt (a : ascii) : same_char true "<" a = Ascii.eqb a "<".
Proof. destruct a as [[] [] [] [] [] [] [] []]; reflexivity. Qed.

Lemma canonicalize_lt (a : ascii) : Str.canonicalize a = "<"%char -> a = "<"%char.
Proof. destruct a as [[] [] [] [] [] [] [] []]; vm_compute; congruence. Qed.

Lemma canonicalize_gt (a : ascii) : Str.canonicalize a = ">"%char -> a = ">"%char.
Proof. destruct a as [[] [] [] [] [] [] [] []]; vm_compute; congruence. Qed.

(** On [view_tag] the backtracking matcher finds what [view_tag_at] finds. *)
Lemma exec_view_tag (s : string) : exec true view_tag s = view_tag_at s.
Proof.
  unfold exec, view_tag, view_tag_at.
  change (run true (Seq (lits "<dbgpt-view") ?R) ?m ?k)
    with (run true (lits "<dbgpt-view") m (fun m' => run true R m' k)).
  rewrite run_lits. cbn [rest matched groups].
  destruct (strip_prefix true "<dbgpt-view" s) as [[o s1]|]; [|reflexivity].
  rewrite run_star_lit.
  2:{ intros a Ha. rewrite same_char_gt. unfold Str.is_not in Ha.
      destruct (Ascii.eqb a ">"); [discriminate|reflexivity]. }
  cbn [rest matched groups].
  destruct (Str.span (Str.is_not ">") s1) as [a s2]. cbn [fst snd].
  destruct s2 as [|g s3]; [reflexivity|].
  rewrite same_char_gt. destruct (Ascii.eqb_spec g ">") as [->|_]; [|reflexivity].
  change (lits "</dbgpt-view>") with (Seq (Lit "<") (lits "/dbgpt-view>")).
  rewrite run_star_lit.
  2:{ intros a' Ha. rewrite same_char_lt. unfold Str.is_not in Ha.
      destruct (Ascii.eqb a' "<"); [discriminate|reflexivity]. }
  cbn [rest matched groups].
  destruct (Str.span (Str.is_not "<") s3) as [b s4]. cbn [fst snd].
  destruct s4 as [|g' s5]; [reflexivity|].
  rewrite (strip_prefix_cons true "<" g' "/dbgpt-view>").
  destruct (same_char true "<" g'); [|reflexivity].
  rewrite run_lits. cbn [rest matched groups].
  destruct (strip_prefix true "/dbgpt-view>" s5) as [[c s6]|]; [|reflexivity].
  rewrite app_nil_l, !app_assoc. reflexivity.
Qed.

(** What [view_tag_at] matches has the shape of an embedded view, *)
Lemma view_tag_at_shape (s : string) (m : rmatch) :
  view_tag_at s = Some m ->
  tag_shape (matched m) /\ s = matched m +:+ rest m /\ groups m = [].
Proof.
  unfold view_tag_at. intros H.
  destruct (strip_prefix true "<dbgpt-view" s) as [[o s1]|] eqn:Eo;
    [|discriminate].
  apply strip_prefix_sound in Eo. destruct Eo as [-> Ho].
  pose proof (span_app (Str.is_not ">") s1) as Ea.
  pose proof (span_all (Str.is_not ">") s1) as Ha.
  destruct (Str.span (Str.is_not ">") s1) as [a s2]. simpl in Ea, Ha. subst s1.
  destruct s2 as [|g s3]; [discriminate|].
  destruct (Ascii.eqb_spec g ">") as [->|_]; [|discriminate].
  pose proof (span_app (Str.is_not "<") s3) as Eb.
  pose proof (span_all (Str.is_not "<") s3) as Hb.
  destruct (Str.span (Str.is_not "<") s3) as [b s4]. simpl in Eb, Hb. subst s3.
  destruct (strip_prefix true "</dbgpt-view>" s4) as [[c s5]|] eqn:Ec;
    [|discriminate].
  apply strip_prefix_sound in Ec. destruct Ec as [-> Hc].
  injection H as <-. simpl. split; [|split; [|reflexivity]].
  - exists o, a, b, c. repeat split; assumption.
  - rewrite !app_assoc. reflexivity.
Qed.

(** and a string of that shape is matched whole, whatever follows it. *)
Lemma shape_view_tag_at (tag : string) :
  tag_shape tag ->
  forall r, view_tag_at (tag +:+ r) = Some (RMatch tag [] r).
Proof.
  intros [o [a [b [c [-> [Ho [Ha [Hb Hc]]]]]]]] r.
  unfold view_tag_at. rewrite !app_assoc.
  rewrite (strip_prefix_complete "<dbgpt-view" o) by exact Ho.
  rewrite span_app_stop by (try exact Ha; reflexivity).
  rewrite app_cons, app_nil_l. rewrite Ascii.eqb_refl.
  rewrite span_app_stop.
  - rewrite (strip_prefix_complete "</dbgpt-view>" c) by exact Hc. reflexivity.
  - exact Hb.
  - destruct c as [|c0 c]; [discriminate|]. injection Hc as Hc0 _.
    apply canonicalize_lt in Hc0. subst c0. reflexivity.
Qed.

(** Every tag the scan finds has the shape of an embedded view. *)
Lemma view_tags_shape (text : string) :
  Forall (fun p => tag_shape p.2) (view_tags text).1.
Proof.
  pose proof (matches_exec true view_tag text) as H. unfold view_tags.
  destruct (matches true view_tag text) as [ps tl]. simpl in *.
  induction H as [|[lit m] ps [s' Hs'] _ IH]; simpl; constructor.
  - simpl in *. rewrite exec_view_tag in Hs'.
    apply view_tag_at_shape in Hs'. apply Hs'.
  - exact IH.
Qed.

Lemma matches_text (x y : string) :
  Str.all (Str.is_not "<") x = true ->
  matches true view_tag (x +:+ y) = prepend x (matches true view_tag y).
Proof.
  induction x as [|a x IH]; intros H.
  - rewrite app_nil_l.
    destruct (matches true view_tag y) as [[|[lit m] ps] tl]; reflexivity.
  - simpl in H. apply andb_true_iff in H. destruct H as [Ha Hx].
    rewrite app_cons, matches_skip, (IH Hx).
    + destruct (matches true view_tag y) as [[|[lit m] ps] tl]; reflexivity.
    + rewrite exec_view_tag. unfold view_tag_at.
      rewrite strip_prefix_cons, same_char_lt. unfold Str.is_not in Ha.
      destruct (Ascii.eqb a "<"); [discriminate|reflexivity].
Qed.

(** The scan finds the tags a text is made of: pieces of text without [<]
    and strings of the shape of an embedded view. *)
Lemma view_tags_of_pieces (ps : list (string * string)) (tl : string) :
  Forall (fun p => Str.all (Str.is_not "<") p.1 = true /\ tag_shape p.2) ps ->
  Str.all (Str.is_not "<") tl = true ->
  view_tags (Str.concat (map (fun p => p.1 +:+ p.2) ps) +:+ tl) = (ps, tl).
Proof.
  intros Hps Htl. unfold view_tags.
  induction Hps as [|[lit tag] ps [Hlit Htag] _ IH]; simpl.
  - pose proof (matches_text tl EmptyString Htl) as M.
    rewrite String_app_nil_r, matches_nil in M by reflexivity.
    rewrite app_nil_l, M. simpl.
    rewrite String_app_nil_r. reflexivity.
  - simpl in *. unfold Str.concat in *. simpl.
    set (rest0 := foldr String.append EmptyString
                    (map (fun p => p.1 +:+ p.2) ps) +:+ tl) in *.
    replace (((lit +:+ tag) +:+ foldr String.append EmptyString
                (map (fun p => p.1 +:+ p.2) ps)) +:+ tl)
      with (lit +:+ (tag +:+ rest0))
      by (unfold rest0; rewrite !app_assoc; reflexivity).
    rewrite (matches_text lit (tag +:+ rest0) Hlit).
    rewrite (matches_hit true view_tag (tag +:+ rest0) (RMatch tag [] rest0)).
    + simpl. destruct (matches true view_tag rest0) as [qs tl'].
      simpl in *. injection IH as -> ->. unfold tagged at 1. simpl.
      rewrite String_app_nil_r. reflexivity.
    + rewrite exec_view_tag. apply shape_view_tag_at, Htag.
    + simpl. destruct Htag as [o [a [b [c [-> [Ho _]]]]]].
      destruct o; discriminate.
Qed.

Lemma exec_view_tag_extend (x y : string) (m : rmatch) :
  exec true view_tag x = Some m ->
  exec true view_tag (x +:+ y)
  = Some (RMatch (matched m) [] (rest m +:+ y)).
Proof.
  rewrite !exec_view_tag. intros H.
  apply view_tag_at_shape in H. destruct H as [Hshape [Hx _]].
  rewrite Hx at 1. rewrite app_assoc. apply shape_view_tag_at, Hshape.
Qed.

Lemma exec_view_tag_nonempty (s : string) (m : rmatch) :
  exec true view_tag s = Some m -> matched m <> EmptyString.
Proof.
  rewrite exec_view_tag. intros H. apply view_tag_at_shape in H.
  destruct H as [[o [a [b [c [-> [Ho _]]]]]] _].
  destruct o; discriminate.
Qed.

Lemma push_front_nil (c : ascii) (r : list (string * rmatch) * string) :
  (push_front c r).1 = [] <-> r.1 = [].
Proof. destruct r as [[|[lit m] ps] tl]; simpl; split; congruence. Qed.

(** A text without tags has no tag in any of its prefixes. *)
Lemma matches_view_tag_prefix (x y : string) :
  (matches true view_tag (x +:+ y)).1 = [] ->
  (matches true view_tag x).1 = [].
Proof.
  induction x as [|a x IH]; intros H.
  - rewrite matches_nil by reflexivity. reflexivity.
  - rewrite app_cons in H.
    destruct (exec true view_tag (String a (x +:+ y))) as [m|] eqn:E.
    + rewrite (matches_hit _ _ _ _ E (exec_view_tag_nonempty _ _ E)) in H.
      discriminate.
    + rewrite matches_skip in H by exact E. apply push_front_nil in H.
      destruct (exec true view_tag (String a x)) as [m|] eqn:E2.
      * apply (exec_view_tag_extend _ y) in E2. rewrite app_cons in E2.
        congruence.
      * rewrite matches_skip by exact E2. apply push_front_nil, IH, H.
Qed.

Lemma view_tags_prefix (x y : string) :
  (view_tags (x +:+ y)).1 = [] -> (view_tags x).1 = [].
Proof.
  unfold view_tags. intros H.
  pose proof (matches_view_tag_prefix x y) as P.
  destruct (matches true view_tag (x +:+ y)) as [ps tl].
  destruct (matches true view_tag x) as [qs tl'].
  simpl in *. destruct ps; [|discriminate]. rewrite P; reflexivity.
Qed.

(** The text scanned for tags is a prefix of the context. *)
Lemma text_part_prefix (context : string) :
  exists suffix, context = text_part context +:+ suffix.
Proof.
  pose proof (matches_join false (lits relations_separator) context) as J.
  unfold text_part, split.
  destruct (matches false (lits relations_separator) context)
    as [[|[lit m] ps] tl]; simpl in *.
  - exists EmptyString. rewrite String_app_nil_r. symmetry. exact J.
  - eexists. symmetry. exact J.
Qed.

(** *** The payload of a tag *)

Lemma exec_lf (s : string) :
  exec false (lits LF) s =
    match s with
    | String a s' => if Ascii.eqb a "010" then Some (RMatch LF [] s') else None
    | EmptyString => None
    end.
Proof.
  destruct s as [|a s']; unfold exec; cbn -[Ascii.eqb]; [reflexivity|].
  rewrite (Ascii.eqb_sym "010" a).
  destruct (Ascii.eqb_spec a "010") as [->|_]; reflexivity.
Qed.

(** The first step of [pluginVal] computes [escape_newlines]. *)
Lemma replaceAll_escape_newlines (s : string) :
  replaceAll LF "\n" s = escape_newlines s.
Proof.
  unfold replaceAll. induction s as [|a s IH].
  - apply replace_pure_nil. reflexivity.
  - cbn [escape_newlines]. destruct (Ascii.eqb a "010") eqn:E.
    + rewrite (replace_pure_hit false _ _ _ (RMatch LF [] s)).
      * cbn [rest]. rewrite IH. reflexivity.
      * rewrite exec_lf, E. reflexivity.
      * discriminate.
    + rewrite replace_pure_skip by (rewrite exec_lf, E; reflexivity).
      rewrite IH. reflexivity.
Qed.

Lemma escape_newlines_app (x y : string) :
  escape_newlines (x +:+ y) = escape_newlines x +:+ escape_newlines y.
Proof.
  induction x as [|a x IH]; [reflexivity|]. simpl.
  destruct (Ascii.eqb a "010"); rewrite IH; reflexivity.
Qed.

Lemma escape_newlines_all (ch : ascii) (x : string) :
  Str.is_not ch "\" = true -> Str.is_not ch "n" = true ->
  Str.all (Str.is_not ch) x = true ->
  Str.all (Str.is_not ch) (escape_newlines x) = true.
Proof.
  intros H1 H2. induction x as [|a x IH]; [reflexivity|].
  cbn [Str.all escape_newlines].
  intros H. apply andb_true_iff in H. destruct H as [Ha Hx].
  destruct (Ascii.eqb a "010"); [rewrite !app_cons, app_nil_l|];
    cbn [Str.all]; rewrite ?H1, ?H2, ?Ha, (IH Hx); reflexivity.
Qed.

Lemma escape_newlines_id (x : string) :
  Str.all (Str.is_not "010") x = true -> escape_newlines x = x.
Proof.
  induction x as [|a x IH]; [reflexivity|]. simpl. intros H.
  apply andb_true_iff in H. destruct H as [Ha Hx]. unfold Str.is_not in Ha.
  destruct (Ascii.eqb a "010"); [discriminate|]. rewrite (IH Hx). reflexivity.
Qed.

Lemma run_to_gt (m : rmatch) (k : rmatch -> option rmatch) :
  run false (Seq (Star (Str.is_not ">")) (Lit ">")) m k =
    match (Str.span (Str.is_not ">") (rest m)).2 with
    | String _ y =>
        k (RMatch ((matched m +:+ (Str.span (Str.is_not ">") (rest m)).1)
                   +:+ ">") (groups m) y)
    | EmptyString => None
    end.
Proof.
  cbn [run]. rewrite star_greedy.
  - cbn [rest matched groups].
    pose proof (span_stop (Str.is_not ">") (rest m)) as Hs.
    destruct ((Str.span (Str.is_not ">") (rest m)).2) as [|g y];
      [reflexivity|].
    specialize (Hs g y eq_refl). unfold same_char, Str.is_not in *.
    rewrite (Ascii.eqb_sym ">" g).
    destruct (Ascii.eqb_spec g ">") as [->|_]; [reflexivity|discriminate].
  - intros acc a s' Ha. cbn [rest]. unfold same_char, Str.is_not in *.
    rewrite (Ascii.eqb_sym ">" a).
    destruct (Ascii.eqb a ">"); [discriminate|reflexivity].
Qed.

(** The second alternative of [any_tag] never matches where the first does
    not: both need a [<] and a later [>]. *)
Lemma exec_any_tag (s : string) :
  exec false any_tag s =
    match s with
    | String g s1 =>
        if Ascii.eqb g "<" then
          match (Str.span (Str.is_not ">") s1).2 with
          | String _ y =>
              Some (RMatch ("<" +:+ (Str.span (Str.is_not ">") s1).1 +:+ ">") [] y)
          | EmptyString => None
          end
        else None
    | EmptyString => None
    end.
Proof.
  unfold exec, any_tag. rewrite run_alt, !run_seq, run_lit, run_lits.
  cbn [rest matched groups].
  destruct s as [|g s1]; [reflexivity|].
  rewrite strip_prefix_cons. unfold same_char at 1 2.
  rewrite (Ascii.eqb_sym "<" g).
  destruct (Ascii.eqb_spec g "<") as [->|_]; [|reflexivity].
  rewrite run_to_gt. cbn [rest matched groups advance].
  destruct ((Str.span (Str.is_not ">") s1).2) as [|g' y] eqn:E.
  - destruct s1 as [|h s1']; [reflexivity|].
    rewrite strip_prefix_cons. destruct (same_char false "/" h) eqn:Eh;
      [|reflexivity].
    cbn [strip_prefix]. rewrite run_to_gt. cbn [rest].
    assert (h = "/"%char) as -> by (symmetry; apply Ascii.eqb_eq; exact Eh).
    simpl in E. destruct (Str.span (Str.is_not ">") s1') as [x y].
    simpl in *. rewrite E. reflexivity.
  - rewrite app_nil_l, !app_assoc. reflexivity.
Qed.

Abbreviation strip_tags := (replace_pure false any_tag (fun _ => EmptyString)).

Lemma strip_tags_text (x y : string) :
  Str.all (Str.is_not "<") x = true ->
  strip_tags (x +:+ y) = x +:+ strip_tags y.
Proof.
  induction x as [|a x IH]; intros H; [reflexivity|].
  simpl in H. apply andb_true_iff in H. destruct H as [Ha Hx].
  rewrite app_cons, replace_pure_skip.
  - rewrite (IH Hx). reflexivity.
  - rewrite exec_any_tag. unfold Str.is_not in Ha.
    destruct (Ascii.eqb a "<"); [discriminate|reflexivity].
Qed.

Lemma strip_tags_tag (x y : string) :
  Str.all (Str.is_not ">") x = true ->
  strip_tags ("<" +:+ x +:+ ">" +:+ y) = strip_tags y.
Proof.
  intros Hx.
  rewrite (replace_pure_hit false any_tag _ _ (RMatch ("<" +:+ x +:+ ">") [] y)).
  - reflexivity.
  - rewrite app_cons, app_nil_l, exec_any_tag. rewrite Ascii.eqb_refl.
    rewrite span_app_stop by (try exact Hx; reflexivity). reflexivity.
  - discriminate.
Qed.

(** The payload of a tag is its body, with each line feed escaped. *)
Lemma pluginVal_shape (o a b c : string) :
  Str.fold_case o = "<DBGPT-VIEW" ->
  Str.all (Str.is_not ">") a = true ->
  Str.all (Str.is_not "<") b = true ->
  Str.fold_case c = "</DBGPT-VIEW>" ->
  pluginVal (o +:+ a +:+ ">" +:+ b +:+ c) = escape_newlines b.
Proof.
  intros Ho Ha Hb Hc. unfold pluginVal.
  rewrite replaceAll_escape_newlines, !escape_newlines_app.
  rewrite (escape_newlines_id o), (escape_newlines_id c).
  2,3: apply (fold_case_all "010"); [reflexivity|]; rewrite ?Hc, ?Ho; reflexivity.
  change (escape_newlines ">") with ">".
  apply (escape_newlines_all ">") in Ha; [|reflexivity..].
  apply (escape_newlines_all "<") in Hb; [|reflexivity..].
  destruct (fold_case_app_inv "<" "DBGPT-VIEW" o Ho) as [o1 [o2 [-> [Ho1 Ho2]]]].
  apply (fold_case_one "<" o1 canonicalize_lt) in Ho1. subst o1.
  destruct (fold_case_app_inv "<" "/DBGPT-VIEW>" c Hc) as [c1 [c' [-> [Hc1 Hc']]]].
  apply (fold_case_one "<" c1 canonicalize_lt) in Hc1. subst c1.
  destruct (fold_case_app_inv "/DBGPT-VIEW" ">" c' Hc') as [c2 [c3 [-> [Hc2 Hc3]]]].
  apply (fold_case_one ">" c3 canonicalize_gt) in Hc3. subst c3.
  assert (Str.all (Str.is_not ">") o2 = true) as Ho2'.
  { apply fold_case_all; [reflexivity|]. rewrite Ho2. reflexivity. }
  assert (Str.all (Str.is_not ">") c2 = true) as Hc2'.
  { apply fold_case_all; [reflexivity|]. rewrite Hc2. reflexivity. }
  replace (("<" +:+ o2) +:+ escape_newlines a +:+ ">" +:+ escape_newlines b
           +:+ "<" +:+ c2 +:+ ">")
    with ("<" +:+ (o2 +:+ escape_newlines a) +:+ ">"
          +:+ (escape_newlines b +:+ "<" +:+ c2 +:+ ">" +:+ EmptyString))
    by (rewrite !app_assoc, String_app_nil_r; reflexivity).
  rewrite strip_tags_tag by (rewrite all_app, Ho2', Ha; reflexivity).
  rewrite strip_tags_text by exact Hb.
  rewrite strip_tags_tag by exact Hc2'.
  rewrite replace_pure_nil by reflexivity.
  apply String_app_nil_r.
Qed.

Section Runtime.

Variable JSON_parse : string -> completion jsvalue.

Abbreviation parse_view := (ChatContent.parse_view JSON_parse).
Abbreviation replacer := (ChatContent.replacer JSON_parse).
Abbreviation substitute := (ChatContent.substitute JSON_parse).
Abbreviation views := (ChatContent.views JSON_parse).
Abbreviation failures := (ChatContent.failures JSON_parse).
Abbreviation extractor := (ChatContent.extractor JSON_parse).

(** The replacer, run over the matches, writes [substitute] and caches
    [views], from whatever state it starts in. *)
Lemma replacer_foldl (ps : list (string * rmatch)) :
  forall st out,
    foldl (replace_step replacer) (st, out) ps =
      (Closure (cacheIndex st + length (views (map tagged ps)))
               (cachePluginContext st ++ views (map tagged ps))
               (console st ++ failures (map tagged ps)),
       out +:+ substitute (cacheIndex st) (map tagged ps)).
Proof.
  induction ps as [|[lit m] ps IH]; intros [i c l] out; simpl.
  - rewrite Nat.add_0_r, !app_nil_r, String_app_nil_r. reflexivity.
  - unfold ChatContent.replacer at 2.
    destruct (ChatContent.parse_view JSON_parse (matched m)) as [entry|e];
      rewrite IH; simpl.
    + rewrite Nat.add_succ_r, <- (List.app_assoc c [entry]).
      rewrite !StrFacts.app_assoc. reflexivity.
    + rewrite <- (List.app_assoc l [e]), !StrFacts.app_assoc. reflexivity.
Qed.

Lemma extract_views_spec (text : string) :
  extract_views JSON_parse text =
    (Closure (length (views (view_tags text).1)) (views (view_tags text).1)
             (failures (view_tags text).1),
     substitute 0 (view_tags text).1 +:+ (view_tags text).2).
Proof.
  unfold extract_views, replace, view_tags.
  destruct (matches true view_tag text) as [ps tl].
  rewrite replacer_foldl. reflexivity.
Qed.

Lemma extractor_spec (context : string) :
  let m := extractor (Text context) in
  let tags := view_tags (text_part context) in
  value m = substitute 0 tags.1 +:+ tags.2 /\
  cache m = views tags.1 /\
  logged m = failures tags.1.
Proof.
  unfold ChatContent.extractor. rewrite extract_views_spec.
  repeat split.
Qed.

(** The tags and the text around them, put together. *)
Lemma join_tagged (ps : list (string * rmatch)) (tl : string) :
  join ps tl = Str.concat (map (fun p => p.1 +:+ p.2) (map tagged ps)) +:+ tl.
Proof.
  induction ps as [|[lit m] ps IH]; [reflexivity|]. simpl.
  rewrite IH, !StrFacts.app_assoc. reflexivity.
Qed.

Lemma view_tags_join (text : string) :
  text = Str.concat (map (fun p => p.1 +:+ p.2) (view_tags text).1)
         +:+ (view_tags text).2.
Proof.
  pose proof (matches_join true view_tag text) as J.
  unfold view_tags. destruct (matches true view_tag text) as [ps tl].
  simpl in *. rewrite <- join_tagged. symmetry. exact J.
Qed.




Lemma record_shaped_parse_view (tag : string) :
  record_shaped JSON_parse tag -> exists entry, parse_view tag = Ok entry.
Proof.
  intros [v [r [Hv [Hnn Hr]]]]. unfold ChatContent.parse_view, cache_entry.
  rewrite Hv. simpl. destruct v; try congruence; simpl in *;
    rewrite Hr; simpl; eexists; reflexivity.
Qed.

(** When every tag yields a view, the placeholders count up. *)
Lemma substitute_all_ok (ps : list (string * string)) :
  Forall (fun p => exists entry, parse_view p.2 = Ok entry) ps ->
  forall index,
    substitute index ps =
      Str.concat (imap (fun i p => p.1 +:+ placeholder (index + i)) ps) /\
    Forall2 (fun p entry => parse_view p.2 = Ok entry) ps (views ps).
Proof.
  induction 1 as [|[lit tag] ps [entry He] _ IH]; intros index.
  - split; [reflexivity|constructor].
  - simpl in *. rewrite He. destruct (IH (S index)) as [IHs IHv]. split.
    + rewrite IHs, Nat.add_0_r, StrFacts.app_assoc. simpl. do 3 f_equal.
      apply imap_ext. intros i p _. simpl. do 3 f_equal. lia.
    + constructor; [exact He|exact IHv].
Qed.


Lemma text_part_whole (context : string) :
  (matches false (lits relations_separator) context).1 = [] ->
  text_part context = context.
Proof.
  intros H. pose proof (matches_join false (lits relations_separator) context) as J.
  unfold text_part, split.
  destruct (matches false (lits relations_separator) context) as [ps tl].
  simpl in *. subst ps. exact J.
Qed.

(** A tag yields a view exactly when its payload parses to a value that
    is not null and whose [result] is missing, null or a string; the view
    is then made of that value. *)
Lemma parse_view_view_of (tag : string) (entry : DBGPTView) :
  parse_view tag = Ok entry -> view_of JSON_parse tag entry.
Proof.
  unfold ChatContent.parse_view, cache_entry. intros H.
  destruct (JSON_parse (pluginVal tag)) as [v|e] eqn:Hv; [|discriminate H].
  cbn [JS.bind] in H.
  destruct v as [|b|x|str|elems|props]; [discriminate H|..];
    cbn [get JS.bind] in H;
    match type of H with
    | context [nullish_or ?o ?d] =>
        destruct (nullish_or o d) as [| | |r| |] eqn:Hr; try discriminate H
    end;
    cbn [call_formatMarkdownVal JS.bind] in H; injection H as <-;
    eexists _, r; (split; [exact Hv|]); (split; [discriminate|]);
    (split; [exact Hr|]); split; reflexivity.
Qed.

Lemma view_of_record_shaped (tag : string) (entry : DBGPTView) :
  view_of JSON_parse tag entry -> record_shaped JSON_parse tag.
Proof. intros [v [r [Hv [Hnn [Hr _]]]]]. exists v, r. auto. Qed.


(** Every list of tags can be marked. *)
Lemma marks_exist (ps : list (string * string)) :
  exists mask, marks JSON_parse ps mask.
Proof.
  induction ps as [|[lit tag] ps [mask IH]]; [exists []; constructor|].
  destruct (parse_view tag) as [entry|e] eqn:H.
  - exists (true :: mask). constructor; [|exact IH]. split; [|reflexivity].
    intros _.
    apply (view_of_record_shaped tag entry), parse_view_view_of, H.
  - exists (false :: mask). constructor; [|exact IH].
    split; [discriminate|]. intros Hrs.
    destruct (record_shaped_parse_view tag Hrs) as [entry He]. congruence.
Qed.

Lemma marks_app (ps1 ps2 : list (string * string)) (m1 m2 : list bool) :
  marks JSON_parse ps1 m1 -> marks JSON_parse ps2 m2 ->
  marks JSON_parse (ps1 ++ ps2) (m1 ++ m2).
Proof. apply Forall2_app. Qed.





(** Without tags in the text that is scanned, nothing is replaced. *)
Lemma no_tags_in_text_part (context : string) :
  (view_tags (text_part context)).1 = [] ->
  let m := extractor (Text context) in
  value m = text_part context /\ cache m = [].
Proof.
  intros Hnone m.
  destruct (extractor_spec context) as [Hvalue [Hcache _]].
  fold m in Hvalue, Hcache.
  pose proof (view_tags_join (text_part context)) as J.
  rewrite Hnone in Hvalue, Hcache, J. simpl in *.
  split; congruence.
Qed.

(** C7, as amended.  When the context has no embedded-view tag, the
    extractor returns the context up to its first relations separator as it
    is, with an empty cache; a context without a separator is returned
    whole. *)
Theorem no_tags_text_unchanged (context : string) :
  (view_tags context).1 = [] ->
  let m := extractor (Text context) in
  value m = text_part context /\
  cache m = [] /\
  (exists suffix, context = text_part context +:+ suffix) /\
  ((matches false (lits relations_separator) context).1 = [] ->
   value m = context).
Proof.
  intros Hnone m.
  destruct (text_part_prefix context) as [suffix Hsuffix].
  assert ((view_tags (text_part context)).1 = []) as Hnone'.
  { apply (view_tags_prefix _ suffix). rewrite <- Hsuffix. exact Hnone. }
  destruct (no_tags_in_text_part context Hnone') as [Hv Hc]. fold m in Hv, Hc.
  split; [exact Hv|]. split; [exact Hc|]. split; [exists suffix; exact Hsuffix|].
  intros Hsep. rewrite Hv. apply text_part_whole, Hsep.
Qed.

(** C8.  When JSON.parse refuses the context, getRobotContext returns
    the object of the two empty panes, with the error on the console
    only, and both panes are the empty string. *)
Theorem robot_context_falls_back (ctx : context) (e : error) :
  JSON_parse (context_string ctx) = Throw e ->
  robotContext JSON_parse ctx = (empty_panes, [e]) /\
  panes (robotContext JSON_parse ctx).1
  = Ok (VStr EmptyString, VStr EmptyString).
Proof.
  intros H. unfold robotContext, getRobotContext. rewrite H.
  split; reflexivity.
Qed.

(** *** The custom-view component *)

Variable subscript : string -> option nat.
Variable ToString : jsvalue -> completion string.
Variable preprocessLaTeX : string -> string.

Abbreviation custom_view :=
  (ChatContent.custom_view subscript ToString preprocessLaTeX).

Lemma mapper_unknown (status : string) :
  status <> "todo" -> status <> "runing" -> status <> "failed" ->
  status <> "completed" ->
  pluginViewStatusMapper !! status = None.
Proof.
  intros H1 H2 H3 H4. unfold pluginViewStatusMapper.
  rewrite !lookup_insert_ne by congruence.
  apply lookup_singleton_ne. congruence.
Qed.

(** C5.  A status string other than the four known ones has no
    background class and no icon, and the component renders the card
    of the view without them; each known status has its own class and
    icon. *)
Theorem unknown_status_renders_plain
    (status : string) (cache : list DBGPTView) (children : string)
    (i : nat) (entry : DBGPTView) :
  status <> "todo" -> status <> "runing" -> status <> "failed" ->
  status <> "completed" ->
  subscript children = Some i ->
  cache !! i = Some entry ->
  fields entry !! "status" = Some (VStr status) ->
  status_lookup status = (None, None) /\
  custom_view cache children =
    Ok (Card None (fields entry !! "name") None
          (match result entry with
           | EmptyString => ErrMsg (fields entry !! "err_msg")
           | r => Markdown (preprocessLaTeX r)
           end)) /\
  status_lookup "todo" = (Some "bg-gray-500", Some ClockCircleOutlined) /\
  status_lookup "runing" = (Some "bg-blue-500", Some LoadingOutlined) /\
  status_lookup "failed" = (Some "bg-red-500", Some CloseOutlined) /\
  status_lookup "completed" = (Some "bg-green-500", Some CheckOutlined).
Proof.
  intros H1 H2 H3 H4 Hi Hentry Hstatus.
  assert (status_lookup status = (None, None)) as Hlookup.
  { unfold status_lookup, mapper_get.
    rewrite mapper_unknown by assumption.
    destruct (bool_decide (status ∈ Object_prototype)); reflexivity. }
  split; [exact Hlookup|]. split.
  - unfold ChatContent.custom_view. rewrite Hi. simpl. rewrite Hentry.
    rewrite Hstatus. simpl. rewrite Hlookup. reflexivity.
  - repeat split; vm_compute; reflexivity.
Qed.

(** C6.  When the children of a placeholder denote no subscript, or
    one beyond the cache, the component returns the children as they
    are. *)
Theorem missing_entry_renders_children
    (cache : list DBGPTView) (children : string) :
  (subscript children = None \/
   exists i, subscript children = Some i /\ length cache <= i) ->
  custom_view cache children = Ok (Children children).
Proof.
  intros [H|[i [H Hi]]]; unfold ChatContent.custom_view; rewrite H; simpl.
  - reflexivity.
  - rewrite (proj2 (lookup_ge_None cache i)) by exact Hi. reflexivity.
Qed.

End Runtime.

(** Solves [record_shaped Json.parse tag] for a concrete tag. *)
Ltac solve_record_shaped :=
  lazymatch goal with
  | |- record_shaped Json.parse ?tag =>
      let v := eval vm_compute in (Json.parse (pluginVal tag)) in
      lazymatch v with
      | Ok ?x =>
          exists x; eexists;
          split; [vm_compute; reflexivity|];
          split; [discriminate|reflexivity]
      end
  end.



(** *** Concrete inputs, with [Json.parse] and [Num.subscript] *)

(** C8 on a context that is not JSON. *)
Lemma robot_context_falls_back_witness :
  panes (robotContext Json.parse (Text "not json")).1
  = Ok (VStr EmptyString, VStr EmptyString).
Proof.
  refine (proj2 (robot_context_falls_back Json.parse _ SyntaxError _)).
  vm_compute. reflexivity.
Defined.

(** C5 on the status [cancelled]. *)
Lemma unknown_status_renders_plain_witness :
  status_lookup "cancelled" = (None, None).
Proof.
  refine (proj1 (unknown_status_renders_plain Num.subscript
    (fun _ => Throw TypeError) (fun md => md) "cancelled"
    [View {[ "status" := VStr "cancelled" ]} "done"] "0" 0
    (View {[ "status" := VStr "cancelled" ]} "done") _ _ _ _ _ _ _));
    try discriminate; reflexivity.
Defined.

(** C6 on a subscript beyond a cache of one view. *)
Lemma missing_entry_renders_children_witness :
  custom_view Num.subscript (fun _ => Throw TypeError) (fun md => md)
    [View ∅ "done"] "1"
  = Ok (Children "1").
Proof.
  apply missing_entry_renders_children. right. exists 1.
  split; [reflexivity|simpl; lia].
Defined.





(** C7, as stated, fails on a context with a relations separator: it has
    no tag, and the extractor returns only what precedes the separator. *)
Lemma relations_suffix_counterexample :
  let context := "a" +:+ TAB +:+ "relations:b" in
  let m := extractor Json.parse (Text context) in
  (view_tags context).1 = [] /\ value m = "a" /\ value m <> context /\
  cache m = [].
Proof.
  repeat split; try (vm_compute; reflexivity). vm_compute. discriminate.
Qed.

(** C7 on a text with markup that is not an embedded view. *)
Lemma no_tags_text_unchanged_witness :
  value (extractor Json.parse (Text "no tags <b>here</b>"))
  = "no tags <b>here</b>".
Proof.
  refine (proj1 (no_tags_text_unchanged Json.parse _ _)).
  vm_compute. reflexivity.
Defined.

End ChatContentFacts.

(** ** The tab state machine *)

Module VisTabsFacts.

Import VisTabs.

Lemma getLastActiveKey_snoc (data : list VisTabsData) (d : VisTabsData) :
  getLastActiveKey (data ++ [d]) = task_id d.
Proof. unfold getLastActiveKey. rewrite last_snoc. reflexivity. Qed.

(** C9.  The last active key of the empty sequence is the empty string;
    that of a sequence with a last element is the task id of that element;
    and the active key of the first render is the last active key of its
    data. *)
Theorem last_active_key_total :
  getLastActiveKey [] = EmptyString /\
  (forall data d, getLastActiveKey (data ++ [d]) = task_id d) /\
  (forall data, data <> [] ->
     exists d, last data = Some d /\ getLastActiveKey data = task_id d) /\
  (forall data, activeKey (mount data) = getLastActiveKey data).
Proof.
  split; [reflexivity|]. split; [exact getLastActiveKey_snoc|]. split.
  - intros data Hne. destruct (last data) as [d|] eqn:E.
    + exists d. split; [reflexivity|]. unfold getLastActiveKey.
      rewrite E. reflexivity.
    + apply last_None in E. contradiction.
  - reflexivity.
Qed.

Lemma follows_mount (data : list VisTabsData) : follows (mount data).
Proof. intros _. reflexivity. Qed.

Lemma follows_step (c : component) (e : event) :
  internal e = true -> follows c -> follows (step c e).
Proof.
  intros He Hc. destruct e as [data'|key|taskId]; [| |discriminate].
  - intros Hflag. simpl in *. rewrite Hflag. reflexivity.
  - intros Hflag. simpl in *.
    destruct (String.eqb_spec key (getLastActiveKey (data c))) as [->|_];
      [reflexivity|discriminate].
Qed.

Lemma follows_run (es : list event) :
  forall c,
    Forall (fun e => internal e = true) es ->
    follows c -> follows (run_events c es).
Proof.
  induction es as [|e es IH]; intros c Hes Hc; [exact Hc|].
  inversion Hes as [|? ? He Hes']; subst. simpl.
  apply IH; [exact Hes'|]. apply follows_step; assumption.
Qed.

Lemma pinned_stays (key : string) (ds : list VisTabsData) :
  forall c,
    isUserActive c = true -> activeKey c = key ->
    isUserActive (foldl append_record c ds) = true /\
    activeKey (foldl append_record c ds) = key.
Proof.
  induction ds as [|d ds IH]; intros c Hflag Hkey; [split; assumption|].
  simpl. apply IH; simpl; rewrite Hflag; [reflexivity|exact Hkey].
Qed.

(** What holds of the tabs without the emitter.  In every state the
    component reaches from its first render
    through arriving data and selections in the tab strip, the active tab
    is the task id of the last record unless the user is driving; there,
    a new last record becomes the active tab.  Once the user selects a
    tab other than the last, the records that arrive leave that tab
    active.  When the user selects the last tab, the flag is cleared and
    the next record that arrives becomes the active tab again. *)
Theorem tabs_follow_until_pinned :
  (forall data es,
     Forall (fun e => internal e = true) es ->
     follows (run_events (mount data) es)) /\
  (forall c d,
     isUserActive c = false ->
     activeKey (append_record c d) = task_id d /\
     isUserActive (append_record c d) = false) /\
  (forall c key ds,
     key <> getLastActiveKey (data c) ->
     isUserActive (foldl append_record (onChange key c) ds) = true /\
     activeKey (foldl append_record (onChange key c) ds) = key) /\
  (forall c key d,
     key = getLastActiveKey (data c) ->
     isUserActive (onChange key c) = false /\
     activeKey (onChange key c) = getLastActiveKey (data (onChange key c)) /\
     activeKey (append_record (onChange key c) d) = task_id d).
Proof.
  split; [|split; [|split]].
  - intros data es Hes. apply follows_run; [exact Hes|apply follows_mount].
  - intros c d Hflag. unfold append_record, receive. simpl. rewrite Hflag.
    simpl. split; [apply getLastActiveKey_snoc|reflexivity].
  - intros c key ds Hkey. apply pinned_stays; simpl; [|reflexivity].
    destruct (String.eqb_spec key (getLastActiveKey (data c)));
      [contradiction|reflexivity].
  - intros c key d ->. unfold onChange, setTabActiveByUser, append_record.
    simpl. rewrite String.eqb_refl. simpl.
    split; [reflexivity|]. split; [reflexivity|].
    apply getLastActiveKey_snoc.
Qed.

(** C3 fails on the code.  The component is rendered with the record of
    T1, then with those of T1 and T2, and follows to T2.  The event
    TASK_CLICK of T1 then selects T1, which is not the last tab; its
    handler compares T1 with the last task id of the first render, which
    is T1, and clears the flag of the user driving.  The flag is clear and
    the active tab is not the last one; the next record takes the active
    tab away from the selection.  The same selection made in the tab
    strip sets the flag and stays.  So the active tab does not follow the
    last record in every state the component reaches. *)
Lemma task_click_breaks_auto_follow :
  let c0 := receive [tab "T1"; tab "T2"] (mount [tab "T1"]) in
  let c := on_TASK_CLICK "T1" c0 in
  (activeKey c0 = "T2" /\ isUserActive c0 = false) /\
  (activeKey c = "T1" /\ isUserActive c = false /\
   getLastActiveKey (data c) = "T2") /\
  ~ follows c /\
  activeKey (append_record c (tab "T3")) = "T3" /\
  (isUserActive (onChange "T1" c0) = true /\
   activeKey (append_record (onChange "T1" c0) (tab "T3")) = "T1") /\
  ~ (forall data es, follows (run_events (mount data) es)).
Proof.
  cbn zeta. split; [split; reflexivity|]. split; [repeat split|].
  assert (~ follows (on_TASK_CLICK "T1"
                       (receive [tab "T1"; tab "T2"] (mount [tab "T1"]))))
    as Hno.
  { intros H. specialize (H eq_refl). discriminate H. }
  split; [exact Hno|]. split; [reflexivity|]. split; [split; reflexivity|].
  intros H. apply Hno.
  apply (H [tab "T1"] [Receive [tab "T1"; tab "T2"]; TaskClick "T1"]).
Qed.

(** The handler of TASK_CLICK agrees with a click in the tab strip as long
    as the data it closes over has the last task id of the current data. *)
Lemma task_click_as_change (c : component) (taskId : string) :
  getLastActiveKey (handler_data c) = getLastActiveKey (data c) ->
  on_TASK_CLICK taskId c = onChange taskId c.
Proof.
  intros H. unfold on_TASK_CLICK, onChange, setTabActiveByUser.
  rewrite H. reflexivity.
Qed.

(** C4 fails on the code.  The component is rendered with the record of
    T1, then with those of T1 and T2.  A click on T2 in the tab strip
    clears the flag of the user driving; the event TASK_CLICK of T2 sets
    it, since its handler compares T2 with the last task id of the first
    render.  The next record is then followed after the click, and not
    after the event. *)
Lemma task_click_compares_with_first_render :
  let c := receive [tab "T1"; tab "T2"] (mount [tab "T1"]) in
  activeKey c = "T2" /\ isUserActive c = false /\
  isUserActive (onChange "T2" c) = false /\
  isUserActive (on_TASK_CLICK "T2" c) = true /\
  activeKey (append_record (onChange "T2" c) (tab "T3")) = "T3" /\
  activeKey (append_record (on_TASK_CLICK "T2" c) (tab "T3")) = "T2".
Proof. repeat split. Qed.

End VisTabsFacts.

(** ** The relations suffix: splitting at a separator *)

Module SplitFacts.

Import Regex JS ChatContent StrFacts RegexFacts ChatContentFacts.

(** A literal pattern does not match where its first character is absent. *)
Lemma exec_lits_head (c a : ascii) (pat s : string) :
  Str.is_not c a = true -> exec false (lits (String c pat)) (String a s) = None.
Proof.
  intros H. unfold exec. rewrite run_lits. cbn [rest].
  rewrite strip_prefix_cons. unfold same_char, Str.is_not in *.
  rewrite Ascii.eqb_sym. destruct (Ascii.eqb a c); [discriminate|reflexivity].
Qed.

Lemma strip_prefix_self (pat r : string) :
  strip_prefix false pat (pat +:+ r) = Some (pat, r).
Proof.
  induction pat as [|c pat IH]; [reflexivity|].
  rewrite app_cons, strip_prefix_cons. unfold same_char.
  rewrite Ascii.eqb_refl, IH. reflexivity.
Qed.

Lemma exec_lits_self (pat r : string) :
  exec false (lits pat) (pat +:+ r) = Some (RMatch pat [] r).
Proof.
  unfold exec. rewrite run_lits. cbn [rest matched groups].
  rewrite strip_prefix_self. reflexivity.
Qed.

Lemma matches_lits_text (c : ascii) (pat x y : string) :
  Str.all (Str.is_not c) x = true ->
  matches false (lits (String c pat)) (x +:+ y)
  = prepend x (matches false (lits (String c pat)) y).
Proof.
  induction x as [|a x IH]; intros H.
  - rewrite app_nil_l.
    destruct (matches false (lits (String c pat)) y) as [[|[lit m] ps] tl];
      reflexivity.
  - simpl in H. apply andb_true_iff in H. destruct H as [Ha Hx].
    rewrite app_cons, matches_skip, (IH Hx) by (apply exec_lits_head, Ha).
    destruct (matches false (lits (String c pat)) y) as [[|[lit m] ps] tl];
      reflexivity.
Qed.

Lemma split_text (c : ascii) (pat x : string) :
  Str.all (Str.is_not c) x = true ->
  split (String c pat) x = [x].
Proof.
  intros H. unfold split.
  pose proof (matches_lits_text c pat x EmptyString H) as M.
  rewrite String_app_nil_r, matches_nil in M by reflexivity.
  rewrite M. simpl. rewrite String_app_nil_r. reflexivity.
Qed.

Lemma split_cons (c : ascii) (pat x y : string) :
  Str.all (Str.is_not c) x = true ->
  split (String c pat) (x +:+ String c pat +:+ y)
  = x :: split (String c pat) y.
Proof.
  intros H. unfold split. rewrite (matches_lits_text c pat x _ H).
  rewrite (matches_hit false _ _ (RMatch (String c pat) [] y))
    by (try apply exec_lits_self; discriminate).
  cbn [rest]. destruct (matches false (lits (String c pat)) y) as [ps tl].
  simpl. rewrite String_app_nil_r. reflexivity.
Qed.

(** Splitting at commas undoes joining with commas. *)
Lemma split_concat (c : ascii) (items : list string) :
  Forall (fun item => Str.all (Str.is_not c) item = true) items ->
  items <> [] ->
  split (String c EmptyString) (String.concat (String c EmptyString) items)
  = items.
Proof.
  induction 1 as [|item items Hitem _ IH]; intros Hne; [congruence|].
  destruct items as [|item' items].
  - simpl. apply split_text, Hitem.
  - change (String.concat (String c EmptyString) (item :: item' :: items))
      with (item +:+ String c EmptyString
            +:+ String.concat (String c EmptyString) (item' :: items)).
    rewrite split_cons by exact Hitem. rewrite IH by discriminate. reflexivity.
Qed.

End SplitFacts.

(** ** More on the tag extractor *)

Module ExtractorFacts.

Import Regex JS ChatContent StrFacts RegexFacts ChatContentFacts SplitFacts.

Lemma escape_newlines_no_lf (s : string) :
  Str.all (Str.is_not "010") (escape_newlines s) = true.
Proof.
  induction s as [|a s IH]; [reflexivity|]. cbn [escape_newlines].
  destruct (Ascii.eqb a "010") eqn:E.
  - rewrite !app_cons, app_nil_l. cbn [Str.all]. rewrite IH. reflexivity.
  - cbn [Str.all]. rewrite IH. unfold Str.is_not. rewrite E. reflexivity.
Qed.

(** X1.  The payload handed to JSON.parse for an embedded-view tag: for a
    tag made of an opening tag in any case with attributes, a body
    without [<], and the closing tag in any case, it is exactly the body
    with each line feed written as a backslash and [n]; the opening and
    closing tags are stripped, and no raw line feed is left in it. *)
Theorem payload_is_escaped_body (o a b c : string) :
  Str.fold_case o = "<DBGPT-VIEW" ->
  Str.all (Str.is_not ">") a = true ->
  Str.all (Str.is_not "<") b = true ->
  Str.fold_case c = "</DBGPT-VIEW>" ->
  pluginVal (o +:+ a +:+ ">" +:+ b +:+ c) = escape_newlines b /\
  Str.all (Str.is_not "010") (pluginVal (o +:+ a +:+ ">" +:+ b +:+ c)) = true.
Proof.
  intros Ho Ha Hb Hc. rewrite (pluginVal_shape o a b c Ho Ha Hb Hc).
  split; [reflexivity|apply escape_newlines_no_lf].
Qed.

Lemma payload_is_escaped_body_witness :
  pluginVal ("<DBGPT-view" +:+ " id=1" +:+ ">" +:+ ("{" +:+ LF +:+ "}") +:+ "</dbgpt-VIEW>")
  = "{\n}".
Proof.
  refine (proj1 (payload_is_escaped_body "<DBGPT-view" " id=1"
                   ("{" +:+ LF +:+ "}") "</dbgpt-VIEW>" _ _ _ _));
    reflexivity.
Defined.

(** X2.  The scan for embedded views misses no tag: in a text made of
    pieces without [<], each followed by a tag of the embedded-view shape,
    and a last piece without [<], the scan finds exactly these tags, in
    order, each with the piece before it. *)
Theorem scan_finds_the_tags (ps : list (string * string)) (tl : string) :
  Forall (fun p => Str.all (Str.is_not "<") p.1 = true /\ tag_shape p.2) ps ->
  Str.all (Str.is_not "<") tl = true ->
  view_tags (Str.concat (map (fun p => p.1 +:+ p.2) ps) +:+ tl) = (ps, tl).
Proof. apply view_tags_of_pieces. Qed.

Lemma scan_finds_the_tags_witness :
  view_tags "a<dbgpt-view>{}</DBGPT-VIEW>b"
  = ([("a", "<dbgpt-view>{}</DBGPT-VIEW>")], "b").
Proof.
  apply (scan_finds_the_tags [("a", "<dbgpt-view>{}</DBGPT-VIEW>")] "b");
    [|reflexivity].
  repeat constructor.
  exists "<dbgpt-view", EmptyString, "{}", "</DBGPT-VIEW>".
  repeat split.
Defined.

(** X3.  The scan for embedded views finds nothing else: in any text,
    every fragment it reports has the embedded-view shape (opening tag in
    any case, attributes without [>], a body without [<], closing tag in
    any case), and the fragments with the text between them make up the
    text again, so that nothing is lost or reordered. *)
Theorem scan_is_sound (text : string) :
  Forall (fun p => tag_shape p.2) (view_tags text).1 /\
  text = Str.concat (map (fun p => p.1 +:+ p.2) (view_tags text).1)
         +:+ (view_tags text).2.
Proof. split; [apply view_tags_shape|apply view_tags_join]. Qed.

Section Accounting.
Variable JSON_parse : string -> completion jsvalue.

Lemma views_failures_length (ps : list (string * string)) :
  length (views JSON_parse ps) + length (failures JSON_parse ps) = length ps.
Proof.
  induction ps as [|[lit tag] ps IH]; [reflexivity|]. simpl.
  destruct (parse_view JSON_parse tag); simpl; lia.
Qed.

(** X4.  The replace call accounts for every tag it scans: each tag is
    either pushed on the view cache or logged on the console, never both
    and never neither, and the index of the next placeholder always is
    the size of the cache. *)
Theorem every_tag_cached_or_logged (text : string) :
  let r := extract_views JSON_parse text in
  cacheIndex r.1 = length (cachePluginContext r.1) /\
  length (cachePluginContext r.1) + length (console r.1)
  = length (view_tags text).1.
Proof.
  intros r. unfold r. rewrite extract_views_spec. simpl.
  split; [reflexivity|apply views_failures_length].
Qed.

End Accounting.

Lemma all_concat_sep (p : ascii -> bool) (c : ascii) (items : list string) :
  p c = true ->
  Forall (fun item => Str.all p item = true) items ->
  Str.all p (String.concat (String c EmptyString) items) = true.
Proof.
  intros Hc. induction 1 as [|item items Hitem _ IH]; [reflexivity|].
  destruct items as [|item' items]; [exact Hitem|].
  change (String.concat (String c EmptyString) (item :: item' :: items))
    with (item +:+ String c EmptyString
          +:+ String.concat (String c EmptyString) (item' :: items)).
  rewrite all_app, Hitem, app_cons, app_nil_l. cbn [Str.all andb].
  rewrite Hc, IH. reflexivity.
Qed.

Section Relations.
Variable JSON_parse : string -> completion jsvalue.

(** X5.  The relations suffix round-trips: for a text without a tab and
    relation names without comma or tab, not all empty, the extractor on
    the text, the separator and the names joined by commas gives back the
    names as the relations, and the value and the view cache it gives for
    the text alone, which has no relations. *)
Theorem relations_recovered (text : string) (items : list string) :
  Str.all (Str.is_not "009") text = true ->
  Forall (fun item => Str.all (Str.is_not ",") item = true) items ->
  Forall (fun item => Str.all (Str.is_not "009") item = true) items ->
  String.concat "," items <> EmptyString ->
  let context := text +:+ relations_separator +:+ String.concat "," items in
  let m := extractor JSON_parse (Text context) in
  let m0 := extractor JSON_parse (Text text) in
  text_part context = text /\
  relations m = items /\
  value m = value m0 /\ cache m = cache m0 /\
  relations m0 = [].
Proof.
  intros Htext Hcomma Htab Hne context m m0.
  assert (items <> []) as Hitems by (intros ->; apply Hne; reflexivity).
  assert (split relations_separator context
          = [text; String.concat "," items]) as Hsplit.
  { unfold context, relations_separator, TAB. rewrite app_cons, app_nil_l.
    rewrite split_cons by exact Htext.
    rewrite split_text; [reflexivity|].
    apply (all_concat_sep (Str.is_not "009") ","); [reflexivity|exact Htab]. }
  assert (split relations_separator text = [text]) as Hsplit0.
  { unfold relations_separator, TAB. rewrite app_cons, app_nil_l.
    apply split_text, Htext. }
  assert (text_part context = text) as Hpart.
  { unfold text_part. rewrite Hsplit. reflexivity. }
  assert (text_part text = text) as Hpart0.
  { unfold text_part. rewrite Hsplit0. reflexivity. }
  unfold m, m0, extractor. rewrite Hpart, Hpart0, Hsplit, Hsplit0.
  destruct (extract_views JSON_parse text) as [st result]. cbn.
  destruct (String.concat "," items) as [|a rel] eqn:E; [congruence|].
  rewrite <- E. repeat split.
  apply (split_concat "," items Hcomma Hitems).
Qed.

End Relations.

Lemma relations_recovered_witness :
  relations (extractor Json.parse
               (Text ("hello" +:+ relations_separator +:+ "a,b,c")))
  = ["a"; "b"; "c"].
Proof.
  refine (proj1 (proj2 (relations_recovered Json.parse "hello"
                          ["a"; "b"; "c"] _ _ _ _)));
    repeat constructor; discriminate.
Defined.

Lemma to_uint_nonnil (n : nat) : Nat.to_uint n <> Decimal.Nil.
Proof.
  intros H. pose proof (DecimalNat.Unsigned.of_to n) as E. rewrite H in E.
  simpl in E. subst n. discriminate.
Qed.

Lemma of_nat_inj (n m : nat) : Str.of_nat n = Str.of_nat m -> n = m.
Proof.
  unfold Str.of_nat. intros H. apply DecimalNat.Unsigned.to_uint_inj.
  pose proof (NilZero.usu _ (to_uint_nonnil n)) as Hn.
  pose proof (NilZero.usu _ (to_uint_nonnil m)) as Hm.
  rewrite H in Hn. congruence.
Qed.

Lemma app_inv_tail (s x y : string) : x +:+ s = y +:+ s -> x = y.
Proof.
  revert y. induction x as [|a x IH]; intros [|b y] H.
  - reflexivity.
  - exfalso. apply (f_equal String.length) in H.
    rewrite app_nil_l, app_cons in H. simpl in H. rewrite length_app in H. lia.
  - exfalso. apply (f_equal String.length) in H.
    rewrite app_nil_l, app_cons in H. simpl in H. rewrite length_app in H. lia.
  - rewrite !app_cons in H. injection H as -> H. f_equal. apply IH, H.
Qed.

(** X6.  Placeholders do not collide: two placeholders that are the same
    string carry the same index, so a placeholder names one entry of the
    view cache. *)
Theorem placeholder_inj (i j : nat) : placeholder i = placeholder j -> i = j.
Proof.
  unfold placeholder. intros H. apply String.app_inj in H.
  apply app_inv_tail in H. apply of_nat_inj, H.
Qed.

Lemma placeholder_inj_witness : 3 = 3.
Proof. apply (placeholder_inj 3 3). reflexivity. Defined.

Lemma decimal_of_uint (d : Decimal.uint) :
  forall acc, Num.decimal acc (NilEmpty.string_of_uint d)
              = Some (Nat.of_uint_acc d acc).
Proof.
  induction d; intros acc; simpl NilEmpty.string_of_uint;
    simpl Nat.of_uint_acc; [reflexivity|..];
    cbn [Num.decimal];
    match goal with
    | |- context [Str.is_digit ?c] =>
        change (Str.is_digit c) with true; cbv iota
    end;
    rewrite IHd, Nat.tail_mul_spec; f_equal; f_equal;
    vm_compute nat_of_ascii; lia.
Qed.

(** [Num.subscript] reads back the index a placeholder is written with. *)
Lemma subscript_of_nat (n : nat) : Num.subscript (Str.of_nat n) = Some n.
Proof.
  unfold Num.subscript, Str.of_nat, NilZero.string_of_uint.
  pose proof (to_uint_nonnil n) as Hn.
  pose proof (DecimalNat.Unsigned.of_to n) as E. unfold Nat.of_uint in E.
  destruct (Nat.to_uint n) eqn:D; [congruence|..];
    rewrite decimal_of_uint, E; reflexivity.
Qed.

Section Resolution.
Variable JSON_parse : string -> completion jsvalue.
Variable subscript : string -> option nat.
Variable ToString : jsvalue -> completion string.
Variable preprocessLaTeX : string -> string.

(** X7.  The extractor and the custom-view component fit together: when
    every tag of the scanned part of a context yields a view, the
    component given the index that the placeholder of the i-th tag
    carries finds the view parsed from that very tag, for an index
    conversion that reads decimal numerals back.  It then converts the
    status of that view to a property key: when the conversion throws, as
    it can on a status that is an object, so does the component; when it
    gives a key, and it gives one for a missing status and for a string,
    the component renders the card of the view with the style of that
    key. *)
Theorem placeholders_resolve
    (context : string) (ps : list (string * string)) (tl : string)
    (i : nat) (p : string * string) :
  view_tags (text_part context) = (ps, tl) ->
  Forall (fun q => record_shaped JSON_parse q.2) ps ->
  (forall n, subscript (Str.of_nat n) = Some n) ->
  ps !! i = Some p ->
  exists entry,
    let shown :=
      custom_view subscript ToString preprocessLaTeX
        (cache (extractor JSON_parse (Text context))) (Str.of_nat i) in
    let card := fun key =>
      Card (status_lookup key).1 (fields entry !! "name")
           (status_lookup key).2
           (match result entry with
            | EmptyString => ErrMsg (fields entry !! "err_msg")
            | r => Markdown (preprocessLaTeX r)
            end) in
    parse_view JSON_parse p.2 = Ok entry /\
    view_of JSON_parse p.2 entry /\
    cache (extractor JSON_parse (Text context)) !! i = Some entry /\
    (forall key,
       property_key ToString (fields entry !! "status") = Ok key ->
       shown = Ok (card key)) /\
    (forall e,
       property_key ToString (fields entry !! "status") = Throw e ->
       shown = Throw e) /\
    (fields entry !! "status" = None -> shown = Ok (card "undefined")) /\
    (forall status,
       fields entry !! "status" = Some (VStr status) ->
       shown = Ok (card status)).
Proof.
  intros Htags Hall Hsub Hi.
  destruct (extractor_spec JSON_parse context) as [_ [Hcache _]].
  set (m := extractor JSON_parse (Text context)) in *.
  rewrite Htags in Hcache. cbn [fst] in Hcache.
  assert (Forall (fun q => exists entry, parse_view JSON_parse q.2 = Ok entry) ps)
    as Hok.
  { eapply Forall_impl; [exact Hall|]. intros q. apply record_shaped_parse_view. }
  destruct (substitute_all_ok JSON_parse ps Hok 0) as [_ Hviews].
  destruct (Forall2_lookup_l _ _ _ _ _ Hviews Hi) as [entry [Hentry Hp]].
  exists entry. cbn zeta. rewrite Hcache.
  assert (forall key,
            property_key ToString (fields entry !! "status") = Ok key ->
            custom_view subscript ToString preprocessLaTeX (views JSON_parse ps)
              (Str.of_nat i)
            = Ok (Card (status_lookup key).1 (fields entry !! "name")
                       (status_lookup key).2
                       (match result entry with
                        | EmptyString => ErrMsg (fields entry !! "err_msg")
                        | r => Markdown (preprocessLaTeX r)
                        end))) as Hcard.
  { intros key Hkey. unfold custom_view. rewrite Hsub. simpl. rewrite Hentry.
    rewrite Hkey. cbn [JS.bind]. destruct (status_lookup key) as [bg ic].
    reflexivity. }
  split; [exact Hp|]. split; [apply parse_view_view_of, Hp|].
  split; [exact Hentry|]. split; [exact Hcard|]. split; [|split].
  - intros e He. unfold custom_view. rewrite Hsub. simpl. rewrite Hentry.
    rewrite He. reflexivity.
  - intros Hnone. apply Hcard. rewrite Hnone. reflexivity.
  - intros status Hstatus. apply Hcard. rewrite Hstatus. reflexivity.
Qed.

End Resolution.

Lemma placeholders_resolve_witness :
  custom_view Num.subscript (fun _ => Throw TypeError) (fun md => md)
    (cache (extractor Json.parse
              (Text (Str.quotes
                 "a<dbgpt-view>{'name':'n','status':'completed','result':'ok'}</dbgpt-view>"))))
    "0"
  = Ok (Card (Some "bg-green-500") (Some (VStr "n")) (Some CheckOutlined)
             (Markdown "ok")).
Proof.
  destruct (placeholders_resolve Json.parse Num.subscript
              (fun _ => Throw TypeError) (fun md => md)
              (Str.quotes
                 "a<dbgpt-view>{'name':'n','status':'completed','result':'ok'}</dbgpt-view>")
              [("a", Str.quotes
                  "<dbgpt-view>{'name':'n','status':'completed','result':'ok'}</dbgpt-view>")]
              EmptyString 0
              ("a", Str.quotes
                 "<dbgpt-view>{'name':'n','status':'completed','result':'ok'}</dbgpt-view>"))
    as [entry [Hp [_ [_ [_ [_ [_ Hs]]]]]]].
  - vm_compute. reflexivity.
  - repeat constructor; simpl; solve_record_shaped.
  - exact subscript_of_nat.
  - reflexivity.
  - vm_compute in Hp. injection Hp as <-.
    pose proof (Hs "completed" ltac:(vm_compute; reflexivity)) as H.
    vm_compute in H |- *. exact H.
Defined.

End ExtractorFacts.

(** ** formatMarkdownVal and formatMarkdownValForAgent *)

Module FormatFacts.

Import Regex JS ChatContent ChatContentView StrFacts RegexFacts
  ChatContentFacts.





Lemma exec_glued_text (tag s : string) (a : ascii) :
  Str.is_not "<" a = true ->
  exec true (glued_attribute (String "<" tag)) (String a s) = None.
Proof.
  intros Ha. unfold exec, glued_attribute.
  rewrite run_seq, run_lits. cbn [rest].
  rewrite strip_prefix_cons, same_char_lt. unfold Str.is_not in Ha.
  destruct (Ascii.eqb a "<"); [discriminate|reflexivity].
Qed.

(** Text without [<] is copied as it is. *)
Lemma replace_glued_text (tag : string) (f : rmatch -> string) (x y : string) :
  Str.all (Str.is_not "<") x = true ->
  replace_pure true (glued_attribute (String "<" tag)) f (x +:+ y)
  = x +:+ replace_pure true (glued_attribute (String "<" tag)) f y.
Proof.
  induction x as [|a x IH]; intros H; [reflexivity|].
  simpl in H. apply andb_true_iff in H. destruct H as [Ha Hx].
  rewrite app_cons, replace_pure_skip by (apply exec_glued_text, Ha).
  rewrite (IH Hx). reflexivity.
Qed.

Lemma replace_glued_plain (tag : string) (f : rmatch -> string) (x : string) :
  Str.all (Str.is_not "<") x = true ->
  replace_pure true (glued_attribute (String "<" tag)) f x = x.
Proof.
  intros H. rewrite <- (String_app_nil_r x) at 1.
  rewrite replace_glued_text by exact H.
  rewrite replace_pure_nil by reflexivity. apply String_app_nil_r.
Qed.

Lemma unescape_newlines_cons (a b : ascii) (s : string) :
  unescape_newlines (String a (String b s))
  = if Ascii.eqb a "\" && Ascii.eqb b "n"
    then String "010" (unescape_newlines s)
    else String a (unescape_newlines (String b s)).
Proof. reflexivity. Qed.

Lemma unescape_newlines_all (ch : ascii) (s : string) :
  Str.is_not ch "010" = true ->
  Str.all (Str.is_not ch) s = true ->
  Str.all (Str.is_not ch) (unescape_newlines s) = true.
Proof.
  intros Hlf. remember (String.length s) as n eqn:Hn.
  assert (String.length s <= n) as Hle by lia. clear Hn. revert s Hle.
  induction n as [|n IH]; intros s Hle H.
  - destruct s; [reflexivity|simpl in Hle; lia].
  - destruct s as [|a [|b s']]; [reflexivity|exact H|].
    rewrite unescape_newlines_cons. cbn [Str.all] in H.
    apply andb_true_iff in H. destruct H as [Ha H].
    simpl in Hle.
    destruct (Ascii.eqb a "\" && Ascii.eqb b "n").
    + cbn [Str.all]. rewrite Hlf. apply IH; [lia|].
      cbn [Str.all] in H. apply andb_true_iff in H. apply H.
    + cbn [Str.all]. rewrite Ha. apply IH; [simpl; lia|exact H].
Qed.

Lemma unescape_newlines_head (a : ascii) (s : string) :
  exists c u,
    unescape_newlines (String a s) = String c u /\
    (c = "n"%char -> a = "n"%char).
Proof.
  destruct s as [|b s'].
  - eexists _, _. split; [reflexivity|auto].
  - rewrite unescape_newlines_cons. destruct (Ascii.eqb a "\" && Ascii.eqb b "n").
    + eexists _, _. split; [reflexivity|discriminate].
    + eexists _, _. split; [reflexivity|auto].
Qed.

(** Unescaping leaves no backslash followed by [n]. *)
Lemma unescape_newlines_idem (s : string) :
  unescape_newlines (unescape_newlines s) = unescape_newlines s.
Proof.
  remember (String.length s) as n eqn:Hn.
  assert (String.length s <= n) as Hle by lia. clear Hn. revert s Hle.
  induction n as [|n IH]; intros s Hle.
  - destruct s; [reflexivity|simpl in Hle; lia].
  - destruct s as [|a [|b s']]; [reflexivity|reflexivity|].
    simpl in Hle. rewrite unescape_newlines_cons.
    destruct (Ascii.eqb a "\" && Ascii.eqb b "n") eqn:E.
    + destruct (unescape_newlines s') as [|c u] eqn:U; [reflexivity|].
      rewrite unescape_newlines_cons.
      change (Ascii.eqb "010" "\") with false.
      cbn [andb]. rewrite <- U, IH by lia. reflexivity.
    + destruct (unescape_newlines_head b s') as [c [u [U Hc]]].
      rewrite U. rewrite unescape_newlines_cons.
      assert (Ascii.eqb a "\" && Ascii.eqb c "n" = false) as E'.
      { destruct (Ascii.eqb_spec c "n") as [->|_]; [|apply andb_false_r].
        rewrite (Hc eq_refl) in E. exact E. }
      rewrite E', <- U, IH by (simpl; lia). reflexivity.
Qed.






(** X9.  formatMarkdownVal is the unescaping of line feeds followed by
    formatMarkdownValForAgent; text without [<] goes through the latter
    unchanged, so that formatMarkdownVal only unescapes it, and a second
    pass changes nothing more. *)
Theorem plain_text_only_unescaped (val : string) :
  Str.all (Str.is_not "<") val = true ->
  formatMarkdownValForAgent val = val /\
  formatMarkdownVal val = unescape_newlines val /\
  formatMarkdownVal (formatMarkdownVal val) = formatMarkdownVal val.
Proof.
  intros H.
  assert (forall x, Str.all (Str.is_not "<") x = true ->
                    formatMarkdownValForAgent x = x) as Hagent.
  { intros x Hx. unfold formatMarkdownValForAgent.
    rewrite (replace_glued_plain "table") by exact Hx.
    apply (replace_glued_plain "tr"), Hx. }
  assert (forall x, formatMarkdownVal x
                    = formatMarkdownValForAgent (unescape_newlines x)) as Hfmt.
  { intros x. unfold formatMarkdownVal, formatMarkdownValForAgent.
    rewrite replaceAll_unescape_newlines. reflexivity. }
  assert (Str.all (Str.is_not "<") (unescape_newlines val) = true) as H'.
  { apply unescape_newlines_all; [reflexivity|exact H]. }
  split; [apply Hagent, H|]. split.
  - rewrite Hfmt. apply Hagent, H'.
  - rewrite !Hfmt, (Hagent _ H'), unescape_newlines_idem. apply Hagent, H'.
Qed.

Lemma plain_text_only_unescaped_witness :
  formatMarkdownVal "a\nb" = "a" +:+ LF +:+ "b".
Proof.
  refine (proj1 (proj2 (plain_text_only_unescaped "a\nb" _))). reflexivity.
Defined.











Section Cache.

Variable JSON_parse : string -> completion jsvalue.


End Cache.


End FormatFacts.

(** ** The body of ChatContent and UserIcon *)

Module ChatContentViewFacts.

Import Regex JS ChatContent ChatContentView StrFacts RegexFacts
  ChatContentFacts.

Section Runtime.

Variable JSON_parse : string -> completion jsvalue.
Variable is_zero : string -> bool.

(** X10.  A message whose context is the JSON text of null makes the body
    of ChatContent throw a TypeError, whatever its role, the scene and the
    other props: the panes are destructured from the parsed context before
    anything is rendered, also for a message that shows none of them. *)
Theorem null_context_throws (p : props) (s : string) :
  content_context p = Text s ->
  JSON_parse s = Ok VNull ->
  render JSON_parse p = Throw TypeError.
Proof.
  intros Hctx Hnull. unfold render, ChatContent.robotContext, getRobotContext.
  rewrite Hctx. cbn [context_string]. rewrite Hnull. reflexivity.
Qed.

(** X11.  What the body of ChatContent shows, when it returns: never the
    question of the user nor the thinking indicator, whose conditions
    hold a constant false; nothing for a message whose role is not
    [view]; and for a [view] message exactly one of the template link,
    the two agent panes and the markdown pane. *)
Theorem robot_message_has_one_part (p : props) (r : rendered) :
  render JSON_parse p = Ok r ->
  question_part r = None /\
  thinking_part r = false /\
  (if String.eqb (role p) "view"
   then exists x, robot_parts r = Some [x]
   else robot_parts r = None).
Proof.
  unfold render. intros H.
  destruct (panes _) as [[l rt]|e]; [|discriminate H].
  cbn [JS.bind fst snd] in H.
  destruct (String.eqb (role p) "view").
  - destruct (content_context p) as [text|name intro].
    + unfold agent_part, markdown_part, template_part in H.
      destruct (String.eqb (default EmptyString (scene_param p)) "chat_agent").
      * destruct (messages p) as [|q qs]; [discriminate H|].
        destruct (call_formatMarkdownValForAgent l) as [l'|]; [|discriminate H].
        destruct (call_formatMarkdownValForAgent rt) as [r'|]; [|discriminate H].
        cbn in H. injection H as <-. cbn. rewrite ?andb_false_r. eauto.
      * cbn in H. injection H as <-. cbn. rewrite ?andb_false_r. eauto.
    + cbn in H. injection H as <-. cbn. rewrite ?andb_false_r. eauto.
  - cbn in H. injection H as <-. cbn. rewrite ?andb_false_r. auto.
Qed.

(** X12.  The image of UserIcon never gets an empty source: whatever the
    stored user is, when it parses, the source is a truthy value, the
    avatar of the stored user when that is truthy and the default avatar
    in every other case (no avatar, an empty one, null, zero, false, or a
    stored value that has no properties). *)
Theorem user_icon_src_truthy (item : option string) (src : jsvalue) :
  UserIcon JSON_parse is_zero item = Ok src ->
  ToBoolean is_zero src = true /\
  (src <> default_avatar ->
   exists user, JSON_parse (default EmptyString item) = Ok user /\
                own_props user !! "avatar_url" = Some src).
Proof.
  unfold UserIcon. intros H.
  replace (match item with Some stored => stored | None => EmptyString end)
    with (default EmptyString item) in H by (destruct item; reflexivity).
  destruct (JSON_parse (default EmptyString item)) as [user|e];
    [|discriminate H].
  cbn [JS.bind] in H. injection H as <-.
  unfold optional_get.
  destruct user as [|b|x|s|elems|fields];
    try (split; [reflexivity|intros Hne; contradiction Hne; reflexivity]).
  all: match goal with
       | |- context [own_props ?v !! "avatar_url"] =>
           destruct (own_props v !! "avatar_url") as [url|] eqn:E
       end;
    try (split; [reflexivity|intros Hne; contradiction Hne; reflexivity]).
  all: destruct (ToBoolean is_zero url) eqn:T;
    try (split; [reflexivity|intros Hne; contradiction Hne; reflexivity]).
  all: split; [exact T|intros _; eexists; split; [reflexivity|exact E]].
Qed.

End Runtime.

Lemma null_context_throws_witness :
  render Json.parse (Props "human" (Text "null") false [] None)
  = Throw TypeError.
Proof.
  apply (null_context_throws Json.parse _ "null"); reflexivity.
Defined.

Lemma robot_message_has_one_part_witness :
  exists x,
    robot_parts
      (Rendered "flex  overflow-hidden" None
         (Some [TemplateLink "[sql]: " "More Details"]) false)
    = Some [x].
Proof.
  refine (proj2 (proj2 (robot_message_has_one_part Json.parse
            (Props "view" (Template "sql" EmptyString) false [] None) _ _))).
  vm_compute. reflexivity.
Defined.

Lemma user_icon_src_truthy_witness :
  ToBoolean (fun _ => false) (VStr "/a.png") = true.
Proof.
  refine (proj1 (user_icon_src_truthy Json.parse (fun _ => false)
            (Some (Str.quotes "{'avatar_url': '/a.png'}")) _ _)).
  vm_compute. reflexivity.
Defined.

End ChatContentViewFacts.

(** ** The handler of TASK_CLICK and the tab strip *)

Module VisTabsViewFacts.

Import VisTabs VisTabsView VisTabsFacts.

Lemma handler_data_step (c : component) (e : event) :
  handler_data (step c e) = handler_data c.
Proof. destruct e; reflexivity. Qed.

Lemma handler_data_run (es : list event) (c : component) :
  handler_data (run_events c es) = handler_data c.
Proof.
  revert c. induction es as [|e es IH]; intros c; [reflexivity|].
  cbn [run_events foldl]. unfold run_events in IH. rewrite IH.
  apply handler_data_step.
Qed.

Lemma unpinned_follows (ds : list VisTabsData) (d : VisTabsData) :
  forall c,
    isUserActive c = false ->
    activeKey (foldl append_record c (ds ++ [d])) = task_id d.
Proof.
  induction ds as [|d' ds IH]; intros c Hflag.
  - cbn [app foldl]. unfold append_record, receive. cbn [activeKey].
    rewrite Hflag. apply getLastActiveKey_snoc.
  - cbn [app foldl]. apply IH. unfold append_record, receive.
    cbn [isUserActive]. exact Hflag.
Qed.

(** X13.  The handler of TASK_CLICK, in whatever state the component has
    reached from its first render: the task of the event becomes the
    active tab, and the user counts as driving exactly when that task is
    not the last task of the data of the first render.  So the records
    that arrive afterwards are followed when the event names the last task
    of the first render, and leave the tab of the event active when it
    names any other task, the last task of the current data included. *)
Theorem task_click_in_any_state (data0 : list VisTabsData) (es : list event)
    (taskId : string) :
  let c := on_TASK_CLICK taskId (run_events (mount data0) es) in
  activeKey c = taskId /\
  isUserActive c = negb (String.eqb taskId (getLastActiveKey data0)) /\
  data c = data (run_events (mount data0) es) /\
  (forall ds d,
     activeKey (foldl append_record c (ds ++ [d]))
     = if String.eqb taskId (getLastActiveKey data0) then task_id d
       else taskId).
Proof.
  cbn zeta. unfold on_TASK_CLICK. rewrite handler_data_run.
  cbn [mount handler_data].
  set (c := run_events _ es).
  assert (isUserActive (setTabActiveByUser data0 taskId c)
          = negb (String.eqb taskId (getLastActiveKey data0))) as Hflag.
  { unfold setTabActiveByUser. cbn [isUserActive].
    destruct (String.eqb taskId (getLastActiveKey data0)); reflexivity. }
  split; [reflexivity|]. split; [exact Hflag|]. split; [reflexivity|].
  intros ds d.
  destruct (String.eqb taskId (getLastActiveKey data0)) eqn:E.
  - apply unpinned_follows. rewrite Hflag. reflexivity.
  - apply (pinned_stays taskId (ds ++ [d])); [|reflexivity].
    rewrite Hflag. reflexivity.
Qed.

Lemma receive_receive (d1 d2 : list VisTabsData) (c : component) :
  receive d2 (receive d1 c) = receive d2 c.
Proof.
  unfold receive. cbn [isUserActive activeKey handler_data].
  destruct (isUserActive c); reflexivity.
Qed.

(** X14.  Only the last data counts: after any sequence of renders with
    new data, the component is in the state that a single render with the
    last of them gives.  The intermediate data leave no trace, whether or
    not the user is driving. *)
Theorem renders_collapse (c : component) (ds : list (list VisTabsData))
    (d : list VisTabsData) :
  run_events c (map Receive (ds ++ [d])) = receive d c.
Proof.
  revert c. induction ds as [|d' ds IH]; intros c; [reflexivity|].
  cbn [app map run_events foldl step]. unfold run_events in IH.
  rewrite IH. apply receive_receive.
Qed.

Lemma last_getTabItems (data : list VisTabsData) :
  key <$> last (getTabItems data) = task_id <$> last data.
Proof.
  unfold getTabItems. induction data as [|d [|d' data] IH]; try reflexivity.
  exact IH.
Qed.

(** X15.  The tab strip and the active key: the strip has one item for
    each record, in the order of the records, and in every state reached
    from the first render through arriving data and selections in the
    strip, while the user is not driving and there is a record, the
    active key is the key of the last item of the strip. *)
Theorem active_tab_is_last_item (data0 : list VisTabsData) (es : list event) :
  let c := run_events (mount data0) es in
  Forall (fun e => internal e = true) es ->
  isUserActive c = false ->
  data c <> [] ->
  length (getTabItems (data c)) = length (data c) /\
  key <$> last (getTabItems (data c)) = Some (activeKey c).
Proof.
  cbn zeta. intros Hes Hflag Hne.
  split; [unfold getTabItems; apply length_map|].
  rewrite last_getTabItems.
  rewrite (follows_run es (mount data0) Hes (follows_mount data0) Hflag).
  unfold getLastActiveKey. destruct (last (data _)) as [d|] eqn:E;
    [reflexivity|].
  apply last_None in E. contradiction.
Qed.

Lemma active_tab_is_last_item_witness :
  key <$> last (getTabItems [tab "T1"; tab "T2"; tab "T3"]) = Some "T3".
Proof.
  refine (proj2 (active_tab_is_last_item [tab "T1"]
            [Receive [tab "T1"; tab "T2"]; Change "T1"; Change "T2";
             Receive [tab "T1"; tab "T2"; tab "T3"]] _ _ _)).
  - repeat constructor.
  - reflexivity.
  - discriminate.
Defined.

End VisTabsViewFacts.
